(** * Traffic-Flow-Analysis: lane attribution, reconciliation and the streaming run

    A shallow embedding of [src/tracker.py], [src/lane_counter.py],
    [src/utils.py], [src/video_processor.py] and [src/main.py], followed by
    the properties of the specification stated and proved over it.

    Conventions.
    - Python floats are idealised as rationals ([Q]); [int(x)] on a float is
      truncation toward zero.  Rounding error of the binary format is outside
      the model.
    - Python dictionaries used as maps are [gmap]s; the [lanes] dictionary,
      whose iteration order is observable, is the list of its items in
      insertion order.
    - A dictionary entry that a reader may find absent, holding [None], or
      holding a value is an [entry].
    - Exceptions are values of [exn]; a computation that may raise returns a
      [result].
    - Input and output are a trace of [event]s; console output is not
      modelled. *)

From Stdlib Require Import ZArith QArith Qround Qabs Qminmax Lia Lqa List String Ascii.
From stdpp Require Import base gmap sets list strings pretty sorting.

#[local] Set Warnings "-clear-no-such-hyp".

Open Scope Z_scope.

(* ===================================================================== *)
(** ** Python primitives *)
(* ===================================================================== *)

Module Py.

Inductive exn : Set :=
| KeyError
| ZeroDivisionError
| IndexError
| KeyboardInterrupt
| RuntimeError.

Inductive result (A : Type) : Type :=
| Ok (a : A)
| Raise (e : exn).
Arguments Ok {A} a.
Arguments Raise {A} e.

Definition bind {A B} (m : result A) (k : A -> result B) : result B :=
  match m with
  | Ok a => k a
  | Raise e => Raise e
  end.

(** The value stored under a dictionary key, as [dict.get] and [dict[k]]
    see it: the key is missing, or it holds [None], or it holds a value. *)
Inductive entry (A : Type) : Type :=
| Missing
| Null
| Value (a : A).
Arguments Missing {A}.
Arguments Null {A}.
Arguments Value {A} a.

(** [int(x)] for a float [x]: truncation toward zero. *)
Definition int (q : Q) : Z := Z.quot (Qnum q) (Zpos (Qden q)).

(** [a / b] on floats. *)
Definition truediv (a b : Q) : result Q :=
  if Qeq_bool b 0 then Raise ZeroDivisionError else Ok (a / b)%Q.

(** [a > b] on floats. *)
Definition gt (a b : Q) : bool := negb (Qle_bool a b).

End Py.

Export Py(exn(..), result(..), entry(..)).

#[global] Instance result_bind : MBind Py.result := fun A B k m => Py.bind m k.
#[global] Instance result_ret : MRet Py.result := fun A a => Py.Ok a.

Definition is_Ok {A} (r : result A) : Prop := exists a, r = Ok a.

(* ===================================================================== *)
(** ** Bounding boxes *)
(* ===================================================================== *)

(** A box is the Python list [[x1, y1, x2, y2]]. *)
Record box : Set := Box { bx1 : Q; by1 : Q; bx2 : Q; by2 : Q }.

(** The data model's well-formed boxes: [x1 < x2] and [y1 < y2]. *)
Definition valid_box (a : box) : Prop := (bx1 a < bx2 a)%Q /\ (by1 a < by2 a)%Q.

(** Area under the inclusive pixel-edge convention. *)
Definition box_area (a : box) : Q :=
  ((bx2 a - bx1 a + 1) * (by2 a - by1 a + 1))%Q.

(** Under that convention the box [[x1, y1, x2, y2]] stands for the region
    [x1 <= x < x2 + 1], [y1 <= y < y2 + 1]: the pixels [x1 .. x2] by
    [y1 .. y2], each one unit wide. *)
Definition covers (a : box) (p : Q * Q) : Prop :=
  (bx1 a <= fst p)%Q /\ (fst p < bx2 a + 1)%Q /\
  (by1 a <= snd p)%Q /\ (snd p < by2 a + 1)%Q.

Definition overlap (a b : box) : Prop := exists p, covers a p /\ covers b p.

(* ===================================================================== *)
(** ** tracker.py *)
(* ===================================================================== *)

Module Tracker.

(** One detection dictionary of [detector.py]. *)
Record detection : Set := Detection {
  det_bbox : box;
  det_confidence : Q;
  det_class_id : Z;
  det_class_name : string
  }.

(** One row [x1, y1, x2, y2, track_id] of the array SORT returns. *)
Record track : Set := Track { trk_bbox : box; trk_id : Q }.

(** One tracked-object dictionary. *)
Record tracked_object : Set := TrackedObject {
  track_id : Z;
  bbox : box;
  confidence : entry Q;
  class_id : entry Z;
  class_name : entry string
  }.

Definition interArea (boxA boxB : box) : Q :=
  let xA := Qmax (bx1 boxA) (bx1 boxB) in
  let yA := Qmax (by1 boxA) (by1 boxB) in
  let xB := Qmin (bx2 boxA) (bx2 boxB) in
  let yB := Qmin (by2 boxA) (by2 boxB) in
  (Qmax 0 (xB - xA + 1) * Qmax 0 (yB - yA + 1))%Q.

(** The branch [_compute_iou] takes: the early [return 0.0], or the final
    division with its operands. *)
Inductive iou_branch : Set :=
| ReturnZero
| Divide (num den : Q).

Definition iou_path (boxA boxB : box) : iou_branch :=
  let inter := interArea boxA boxB in
  if Qeq_bool inter 0 then ReturnZero
  else Divide inter (box_area boxA + box_area boxB - inter)%Q.

Definition _compute_iou (boxA boxB : box) : result Q :=
  match iou_path boxA boxB with
  | ReturnZero => Ok 0%Q
  | Divide num den => Py.truediv num den
  end.

(** The inner loop of [update]: the first detection whose IoU with the
    tracked box exceeds 0.5, scanning in list order and stopping there. *)
Fixpoint find_match (detections : list detection) (tb : box)
  : result (option detection) :=
  match detections with
  | [] => Ok None
  | det :: rest =>
      iou ← _compute_iou (det_bbox det) tb;
      if Py.gt iou (1 # 2) then Ok (Some det) else find_match rest tb
  end.

Definition make_tracked (t : track) (m : option detection) : tracked_object :=
  {| track_id := Py.int (trk_id t);
     bbox := trk_bbox t;
     confidence := match m with Some d => Value (det_confidence d) | None => Null end;
     class_id := match m with Some d => Value (det_class_id d) | None => Null end;
     class_name := match m with Some d => Value (det_class_name d) | None => Null end |}.

(** [update], after the call into SORT: [tracks] is what
    [self.tracker.update(dets)] returned for [detections]. *)
Fixpoint update (detections : list detection) (tracks : list track)
  : result (list tracked_object) :=
  match tracks with
  | [] => Ok []
  | t :: rest =>
      m ← find_match detections (trk_bbox t);
      objs ← update detections rest;
      Ok (make_tracked t m :: objs)
  end.

End Tracker.

Export Tracker.

(* ===================================================================== *)
(** ** detector.py *)
(* ===================================================================== *)

Module Detector.

(** One box of the YOLO result: [box.xyxy[0]], [box.conf] and [box.cls]. *)
Record yolo_box : Set := YoloBox { xyxy : box; conf : Q; cls : Q }.

(** The COCO classes kept, as the dictionary literal lists them. *)
Definition VEHICLE_CLASSES : gmap Z string :=
  list_to_map [(2, "car"); (3, "motorbike"); (5, "bus"); (7, "truck")].

(** [detect_vehicles], after the model has run: [boxes] is
    [results.boxes]. *)
Fixpoint detect_vehicles (boxes : list yolo_box) : list detection :=
  match boxes with
  | [] => []
  | b :: rest =>
      let class_id := Py.int (cls b) in
      match VEHICLE_CLASSES !! class_id with
      | Some name =>
          {| det_bbox := xyxy b; det_confidence := conf b;
             det_class_id := class_id; det_class_name := name |}
            :: detect_vehicles rest
      | None => detect_vehicles rest
      end
  end.

End Detector.

(* ===================================================================== *)
(** ** lane_counter.py *)
(* ===================================================================== *)

(** A lane polygon: the list of its integer vertices. *)
Definition polygon : Set := list (Z * Z).

(** The one OpenCV query the attribution depends on:
    [cv2.pointPolygonTest(contour, pt, False)], which answers [+1] for a
    point inside the contour, [0] for a point on an edge and [-1] for a
    point outside. *)
Class Cv2 : Type := { pointPolygonTest : polygon -> Z * Z -> Z }.

Module LaneCounter.

Record t : Type := Self {
  lanes : list (Z * polygon);
  counts : gmap Z Z;
  tracked_ids : gmap Z (gset Z)
  }.

(** [lanes] is the item list of the dictionary passed in, in insertion
    order. *)
Definition __init__ (lanes : list (Z * polygon)) : t :=
  {| lanes := lanes;
     counts := list_to_map ((fun l => (l.1, 0)) <$> lanes);
     tracked_ids := list_to_map ((fun l => (l.1, ∅)) <$> lanes) |}.

Definition centroid (b : box) : Z * Z :=
  (Py.int ((bx1 b + bx2 b) / 2), Py.int ((by1 b + by2 b) / 2)).

Fixpoint first_lane `{Cv2} (items : list (Z * polygon)) (pt : Z * Z) : option Z :=
  match items with
  | [] => None
  | (lane_id, poly) :: rest =>
      if 0 <=? pointPolygonTest poly pt then Some lane_id
      else first_lane rest pt
  end.

Definition assign_lane `{Cv2} (self : t) (b : box) : option Z :=
  first_lane (lanes self) (centroid b).

(** The body of the loop of [update_counts] for one tracked object. *)
Definition count_object `{Cv2} (self : t) (obj : tracked_object) : result t :=
  match assign_lane self (bbox obj) with
  | None => Ok self
  | Some lane_id =>
      match tracked_ids self !! lane_id with
      | None => Raise KeyError
      | Some ids =>
          if decide (track_id obj ∈ ids) then Ok self
          else
            match counts self !! lane_id with
            | None => Raise KeyError
            | Some c =>
                Ok {| lanes := lanes self;
                      counts := <[lane_id := c + 1]> (counts self);
                      tracked_ids :=
                        <[lane_id := {[track_id obj]} ∪ ids]> (tracked_ids self) |}
            end
      end
  end.

Fixpoint count_objects `{Cv2} (self : t) (tracked_objects : list tracked_object)
  : result t :=
  match tracked_objects with
  | [] => Ok self
  | obj :: rest => self' ← count_object self obj; count_objects self' rest
  end.

(** [update_counts] mutates the counter and returns its [counts]. *)
Definition update_counts `{Cv2} (self : t) (tracked_objects : list tracked_object)
  : result (t * gmap Z Z) :=
  self' ← count_objects self tracked_objects;
  Ok (self', counts self').

(** A run of the ledger: one [update_counts] call per frame. *)
Fixpoint update_all `{Cv2} (self : t) (calls : list (list tracked_object))
  : result t :=
  match calls with
  | [] => Ok self
  | objs :: rest => r ← update_counts self objs; update_all r.1 rest
  end.

(** The attributions that changed a count during a run, in order: the
    pairs (lane, track identifier) for which the guarded branch of
    [count_object] was taken. *)
Definition newly_counted `{Cv2} (self : t) (obj : tracked_object)
  : list (Z * Z) :=
  match assign_lane self (bbox obj) with
  | None => []
  | Some lane_id =>
      match tracked_ids self !! lane_id with
      | None => []
      | Some ids =>
          if decide (track_id obj ∈ ids) then [] else [(lane_id, track_id obj)]
      end
  end.

Fixpoint counted_log `{Cv2} (self : t) (tracked_objects : list tracked_object)
  : list (Z * Z) :=
  match tracked_objects with
  | [] => []
  | obj :: rest =>
      newly_counted self obj ++
      match count_object self obj with
      | Ok self' => counted_log self' rest
      | Raise _ => []
      end
  end.

End LaneCounter.

(* ===================================================================== *)
(** ** Observable effects *)
(* ===================================================================== *)

Inductive overlay : Set :=
| Rectangle (pt1 pt2 : Z * Z)
| PutText (text : string) (org : Z * Z)
| Polylines (pts : polygon).

Inductive resource : Set :=
| InputStream       (* self.cap *)
| OutputWriter      (* self.out *)
| ProgressBar       (* pbar *)
| PreviewWindows    (* cv2.destroyAllWindows() *)
| CsvFile.          (* CSVLogger.file *)

Inductive event : Set :=
| Acquire (r : resource)
| Release (r : resource)
| WriteFrame (frame_idx : Z) (overlays : list overlay)
| ImShow (frame_idx : Z)
| CsvRow (row : list string)
| Progress.

#[global] Instance resource_eq_dec : EqDecision resource.
Proof. solve_decision. Defined.

(* ===================================================================== *)
(** ** utils.py *)
(* ===================================================================== *)

Module Utils.

(** [%02d] for a number of minutes or seconds. *)
Definition two_digits (n : Z) : string := pretty (n / 10) +:+ pretty (n mod 10).

(** [str(timedelta(seconds=n))] of the Python standard library: the time
    of day as [H:MM:SS], preceded by the day count once it is not zero. *)
Definition timedelta_str (n : Z) : string :=
  let days := n / 86400 in
  let secs := n mod 86400 in
  let hms :=
    pretty (secs / 3600) +:+ ":" +:+ two_digits (secs / 60 mod 60)
      +:+ ":" +:+ two_digits (secs mod 60) in
  if days =? 0 then hms
  else pretty days +:+ " day" +:+ (if Z.abs days =? 1 then "" else "s")
         +:+ ", " +:+ hms.

(** The row [CSVLogger.__init__] writes when it opens the file. *)
Definition header : list string := ["VehicleID"; "Lane"; "Frame"; "Timestamp"].

(** The row [CSVLogger.log] writes. *)
Definition log (vehicle_id lane_id frame_idx : Z) (timestamp : Q) : list string :=
  [pretty vehicle_id; pretty lane_id; pretty frame_idx;
   timedelta_str (Py.int timestamp)].

(** [CSVLogger(filepath)]: opens the file and writes the header. *)
Definition __init__ : list event := [Acquire CsvFile; CsvRow header].

(** [CSVLogger.close]. *)
Definition close : list event := [Release CsvFile].

End Utils.

(* ===================================================================== *)
(** ** video_processor.py *)
(* ===================================================================== *)

Module VideoProcessor.

(** *** Label formatting *)

(** [obj.get(key, default)]; the result [None] is Python's [None]. *)
Definition get {A} (e : entry A) (default : option A) : option A :=
  match e with
  | Missing => default
  | Null => None
  | Value a => Some a
  end.

(** [x or 0.0] for [x] a float or [None]. *)
Definition or_zero (x : option Q) : Q :=
  match x with
  | None => 0
  | Some q => if Qeq_bool q 0 then 0 else q
  end.

(** A string-or-[None] interpolated in an f-string. *)
Definition fstr (x : option string) : string :=
  match x with
  | None => "None"
  | Some s => s
  end.

(** Rounding to the nearest integer, ties to even. *)
Definition round_half_even (q : Q) : Z :=
  let f := Qfloor q in
  match (q - inject_Z f ?= 1 # 2)%Q with
  | Lt => f
  | Gt => f + 1
  | Eq => if Z.even f then f else f + 1
  end.

(** [f"{q:.2f}"]. *)
Definition format_2f (q : Q) : string :=
  let n := round_half_even (Qabs q * 100) in
  (if Qlt_le_dec q 0 then "-" else "")
    +:+ pretty (n / 100) +:+ "." +:+ pretty (n / 10 mod 10) +:+ pretty (n mod 10).

Definition label (obj : tracked_object) : string :=
  let class_name := get (class_name obj) (Some "vehicle") in
  let conf := or_zero (get (confidence obj) None) in
  "ID " +:+ pretty (track_id obj) +:+ " " +:+ fstr class_name
    +:+ " " +:+ format_2f conf.

(** The drawing loop of [process_frame] for one object. *)
Definition draw_object (obj : tracked_object) : list overlay :=
  let x1 := Py.int (bx1 (bbox obj)) in
  let y1 := Py.int (by1 (bbox obj)) in
  let x2 := Py.int (bx2 (bbox obj)) in
  let y2 := Py.int (by2 (bbox obj)) in
  [Rectangle (x1, y1) (x2, y2); PutText (label obj) (x1, Z.max 20 (y1 - 10))].

(** [LaneCounter.draw_lanes], by the items of [lanes]. *)
Fixpoint draw_lanes (counts : gmap Z Z) (items : list (Z * polygon))
  : result (list overlay) :=
  match items with
  | [] => Ok []
  | (lane_id, poly) :: rest =>
      match poly with
      | [] => Raise IndexError
      | (x, y) :: _ =>
          match counts !! lane_id with
          | None => Raise KeyError
          | Some c =>
              more ← draw_lanes counts rest;
              Ok (Polylines poly
                    :: PutText ("Lane " +:+ pretty lane_id +:+ ": " +:+ pretty c)
                         (x, y - 10)
                    :: more)
          end
      end
  end.

(** *** The streaming run *)

(** The construction parameters and the properties [__init__] reads from
    the opened capture. *)
Record t : Set := Self {
  fps : Q;
  total_frames : Z;
  show_preview : bool
  }.

(** [VideoProcessor(...)] when both the capture and the writer open. *)
Definition __init__ : list event := [Acquire InputStream; Acquire OutputWriter].

(** The places of the per-frame body at which a call into the
    environment can raise instead of returning. *)
Inductive stage : Set :=
| AtDetect                (* detector.detect_vehicles(frame) *)
| AtTrack                 (* the SORT update inside tracker.update *)
| AtAnnotate              (* the drawing calls of process_frame *)
| AtWrite                 (* self.out.write *)
| AtPreview               (* cv2.imshow / cv2.waitKey *)
| AtLog (k : nat)         (* the k-th csv_writer call of the frame *)
| AtProgress.             (* pbar.update(1) *)

#[global] Instance stage_eq_dec : EqDecision stage.
Proof. solve_decision. Defined.

(** What the environment does during one iteration that read a frame. *)
Record frame_input : Set := FrameInput {
  detections : list detection;   (* the detector's answer *)
  tracks : list track;           (* SORT's answer *)
  key_q : bool;                  (* waitKey(1) & 0xFF == ord("q") *)
  fault : option (stage * exn)   (* a call that raises, and where *)
  }.

Record state : Type := State {
  frame_idx : Z;
  lane_counter : LaneCounter.t;
  trace : list event
  }.

(** State and control: a step finishes with a value, leaves the loop
    ([break]), or raises. *)
Inductive outcome (A : Type) : Type :=
| Next (a : A)
| Stop
| Throw (e : exn).
Arguments Next {A} a.
Arguments Stop {A}.
Arguments Throw {A} e.

Definition M (A : Type) : Type := state -> state * outcome A.

Definition ret {A} (a : A) : M A := fun s => (s, Next a).

Definition bind {A B} (m : M A) (k : A -> M B) : M B :=
  fun s =>
    match m s with
    | (s', Next a) => k a s'
    | (s', Stop) => (s', Stop)
    | (s', Throw e) => (s', Throw e)
    end.

Notation "x <- c1 ;; c2" := (bind c1 (fun x => c2))
  (at level 100, c1 at next level, right associativity).
Notation "c1 ;; c2" := (bind c1 (fun _ => c2))
  (at level 100, right associativity).

Definition stop {A} : M A := fun s => (s, Stop).

Definition lift {A} (r : result A) : M A :=
  fun s => match r with Ok a => (s, Next a) | Raise e => (s, Throw e) end.

Definition emit (evs : list event) : M unit :=
  fun s =>
    ({| frame_idx := frame_idx s; lane_counter := lane_counter s;
        trace := trace s ++ evs |}, Next tt).

Definition next_frame : M Z :=
  fun s =>
    ({| frame_idx := frame_idx s + 1; lane_counter := lane_counter s;
        trace := trace s |}, Next (frame_idx s + 1)).

Definition get_counter : M LaneCounter.t := fun s => (s, Next (lane_counter s)).

Definition set_counter (c : LaneCounter.t) : M unit :=
  fun s =>
    ({| frame_idx := frame_idx s; lane_counter := c; trace := trace s |}, Next tt).

Definition at_stage (fi : frame_input) (st : stage) : M unit :=
  match fault fi with
  | Some (st', e) => if decide (st = st') then lift (Raise e) else ret tt
  | None => ret tt
  end.

Definition process_frame `{Cv2} (fi : frame_input)
    (tracked_objects : list tracked_object) : M (list overlay * gmap Z Z) :=
  at_stage fi AtAnnotate ;;
  c <- get_counter ;;
  r <- lift (LaneCounter.update_counts c tracked_objects) ;;
  set_counter r.1 ;;
  lanes <- lift (draw_lanes (LaneCounter.counts r.1) (LaneCounter.lanes r.1)) ;;
  ret (concat (draw_object <$> tracked_objects) ++ lanes, r.2).

(** Step 5 of the loop body; [k] counts the [csv_writer] calls made so
    far in this frame. *)
Fixpoint log_objects `{Cv2} (csv_writer : Z -> Z -> Z -> Q -> list string)
    (fi : frame_input) (idx : Z) (timestamp : Q) (k : nat)
    (tracked_objects : list tracked_object) : M unit :=
  match tracked_objects with
  | [] => ret tt
  | obj :: rest =>
      c <- get_counter ;;
      match LaneCounter.assign_lane c (bbox obj) with
      | Some lane_id =>
          at_stage fi (AtLog k) ;;
          emit [CsvRow (csv_writer (track_id obj) lane_id idx timestamp)] ;;
          log_objects csv_writer fi idx timestamp (S k) rest
      | None => log_objects csv_writer fi idx timestamp k rest
      end
  end.

(** One iteration of [while True] after a successful [self.cap.read()]. *)
Definition frame_body `{Cv2} (self : t)
    (csv_writer : Z -> Z -> Z -> Q -> list string) (fi : frame_input) : M unit :=
  idx <- next_frame ;;
  timestamp <- lift (Py.truediv (inject_Z idx) (fps self)) ;;
  at_stage fi AtDetect ;;
  at_stage fi AtTrack ;;
  tracked_objects <- lift (Tracker.update (detections fi) (tracks fi)) ;;
  annotated <- process_frame fi tracked_objects ;;
  at_stage fi AtWrite ;;
  emit [WriteFrame idx annotated.1] ;;
  (if show_preview self then
     at_stage fi AtPreview ;;
     emit [ImShow idx] ;;
     if key_q fi then stop else ret tt
   else ret tt) ;;
  log_objects csv_writer fi idx timestamp 0 tracked_objects ;;
  at_stage fi AtProgress ;;
  emit [Progress].

(** How the loop was left. *)
Inductive loop_exit : Set :=
| EndOfStream             (* self.cap.read() returned ret = False *)
| UserQuit                (* the break on the q key *)
| Raised (e : exn).

(** The [while True] loop over the frames the capture delivers; when they
    are used up the next read fails. *)
Fixpoint loop `{Cv2} (self : t) (csv_writer : Z -> Z -> Z -> Q -> list string)
    (frames : list frame_input) (s : state) : state * loop_exit :=
  match frames with
  | [] => (s, EndOfStream)
  | fi :: rest =>
      match frame_body self csv_writer fi s with
      | (s', Next _) => loop self csv_writer rest s'
      | (s', Stop) => (s', UserQuit)
      | (s', Throw e) => (s', Raised e)
      end
  end.

(** The [finally] block. *)
Definition teardown : list event :=
  [Release InputStream; Release OutputWriter; Release ProgressBar;
   Release PreviewWindows].

Definition add_events (s : state) (evs : list event) : state :=
  {| frame_idx := frame_idx s; lane_counter := lane_counter s;
     trace := trace s ++ evs |}.

(** [run]: the loop under [try / except KeyboardInterrupt / finally].
    [s] carries the lane counter and the trace so far. *)
Definition run `{Cv2} (self : t) (csv_writer : Z -> Z -> Z -> Q -> list string)
    (frames : list frame_input) (s : state) : state * result unit :=
  let s0 := {| frame_idx := 0; lane_counter := lane_counter s;
               trace := trace s ++ [Acquire ProgressBar] |} in
  match loop self csv_writer frames s0 with
  | (s', EndOfStream) => (add_events s' teardown, Ok tt)
  | (s', UserQuit) => (add_events s' teardown, Ok tt)
  | (s', Raised KeyboardInterrupt) => (add_events s' teardown, Ok tt)
  | (s', Raised e) => (add_events s' teardown, Raise e)
  end.

End VideoProcessor.

(* ===================================================================== *)
(** ** main.py *)
(* ===================================================================== *)

Module Main.

(** The opened input video: its properties and what happens while its
    frames are processed. *)
Record video : Set := Video {
  width : Z;
  height : Z;
  fps : Q;
  total_frames : Z;
  frames : list VideoProcessor.frame_input
  }.

Definition lane_polygon (lane_width start_y height i : Z) : polygon :=
  let x1 := i * lane_width in
  let x2 := (i + 1) * lane_width in
  [(x1, start_y); (x2, start_y); (x2, height); (x1, height)].

Definition define_dynamic_lanes (width height num_lanes : Z)
    (lane_height_ratio : Q) : result (list (Z * polygon)) :=
  if num_lanes =? 0 then Raise ZeroDivisionError
  else
    let lane_width := width / num_lanes in
    let start_y := Py.int (inject_Z height * lane_height_ratio) in
    Ok ((fun i => (i + 1, lane_polygon lane_width start_y height i))
          <$> seqZ 0 num_lanes).

(** Steps 3 to 5 of [main] for given lanes and preview flag: the trace,
    and the counter [print_summary] reads when the run returns. *)
Definition pipeline `{Cv2} (lanes : list (Z * polygon)) (preview : bool)
    (v : video) : list event * result LaneCounter.t :=
  let lane_counter := LaneCounter.__init__ lanes in
  let processor :=
    {| VideoProcessor.fps := fps v;
       VideoProcessor.total_frames := total_frames v;
       VideoProcessor.show_preview := preview |} in
  let s0 :=
    {| VideoProcessor.frame_idx := 0;
       VideoProcessor.lane_counter := lane_counter;
       VideoProcessor.trace := Utils.__init__ ++ VideoProcessor.__init__ |} in
  match VideoProcessor.run processor Utils.log (frames v) s0 with
  | (s, Ok _) =>
      (VideoProcessor.trace s ++ Utils.close, Ok (VideoProcessor.lane_counter s))
  | (s, Raise e) => (VideoProcessor.trace s, Raise e)
  end.

(** [main], once the video file is in place and the detector, the capture
    and the writer have opened: three lanes over the lower 60% of the
    frame, preview on.  (The capture [define_dynamic_lanes] opens to read
    the frame size is released there and is not part of the trace.) *)
Definition main `{Cv2} (v : video) : list event * result LaneCounter.t :=
  match define_dynamic_lanes (width v) (height v) 3 (2 # 5) with
  | Ok lanes => pipeline lanes true v
  | Raise e => ([], Raise e)
  end.

End Main.

(* ===================================================================== *)
(** ** A containment query for convex polygons *)
(* ===================================================================== *)

(** An executable instance of the OpenCV query for convex polygons (the
    lanes [define_dynamic_lanes] builds are rectangles): the sign pattern of
    the cross products of the point with every edge.  It is used to run the
    model on concrete inputs; the general results hold for any instance. *)
Module Convex.

Definition cross (a b p : Z * Z) : Z :=
  (b.1 - a.1) * (p.2 - a.2) - (b.2 - a.2) * (p.1 - a.1).

Definition edges (poly : polygon) : list ((Z * Z) * (Z * Z)) :=
  zip poly (rotate 1 poly).

Definition test (poly : polygon) (pt : Z * Z) : Z :=
  let cs := (fun e => cross e.1 e.2 pt) <$> edges poly in
  if forallb (fun c => 0 <? c) cs || forallb (fun c => c <? 0) cs then 1
  else if forallb (fun c => 0 <=? c) cs || forallb (fun c => c <=? 0) cs then 0
  else -1.

Definition cv2 : Cv2 := {| pointPolygonTest := test |}.

End Convex.

(* ===================================================================== *)
(** ** Vocabulary of the specification *)
(* ===================================================================== *)

(** The common part of two boxes. *)
Definition meet (a b : box) : box :=
  {| bx1 := Qmax (bx1 a) (bx1 b); by1 := Qmax (by1 a) (by1 b);
     bx2 := Qmin (bx2 a) (bx2 b); by2 := Qmin (by2 a) (by2 b) |}.

(** A box with integer pixel coordinates. *)
Definition pixel_box (x1 y1 x2 y2 : Z) : box :=
  Box (inject_Z x1) (inject_Z y1) (inject_Z x2) (inject_Z y2).

(** The pixel [(px, py)] belongs to the box, both corners included. *)
Definition has_pixel (x1 y1 x2 y2 : Z) (px py : Z) : Prop :=
  x1 <= px <= x2 /\ y1 <= py <= y2.

(** The intersection over union of the specification: for two boxes with
    a point in common, the area of the common part over the sum of the two
    areas less the common part, every area by the inclusive pixel-edge
    convention; for two boxes with no point in common, 0. *)
Definition spec_iou (a b : box) (q : Q) : Prop :=
  (overlap a b /\
   q == box_area (meet a b) / (box_area a + box_area b - box_area (meet a b)))%Q \/
  (~ overlap a b /\ q == 0)%Q.

(** The IoU of detection [d] with the tracked box [tb], as the
    specification defines it, exceeds the reconciliation threshold 0.5. *)
Definition iou_exceeds (d : detection) (tb : box) : Prop :=
  exists q, spec_iou (det_bbox d) tb q /\ (1 # 2 < q)%Q.

(** What reconciliation owes a tracked box: the label of the first
    detection over the threshold, or no label. *)
Inductive reconciled (detections : list detection) (t : track)
  : tracked_object -> Prop :=
| reconciled_first (pre post : list detection) (d : detection) :
    detections = pre ++ d :: post ->
    Forall (fun d' => ~ iou_exceeds d' (trk_bbox t)) pre ->
    iou_exceeds d (trk_bbox t) ->
    reconciled detections t
      {| track_id := Py.int (trk_id t); bbox := trk_bbox t;
         confidence := Value (det_confidence d);
         class_id := Value (det_class_id d);
         class_name := Value (det_class_name d) |}
| reconciled_none :
    Forall (fun d' => ~ iou_exceeds d' (trk_bbox t)) detections ->
    reconciled detections t
      {| track_id := Py.int (trk_id t); bbox := trk_bbox t;
         confidence := Null; class_id := Null; class_name := Null |}.

(** [z] is [q] with its fractional part dropped. *)
Definition truncates (q : Q) (z : Z) : Prop :=
  ((0 <= q)%Q -> (inject_Z z <= q)%Q /\ (q < inject_Z z + 1)%Q) /\
  ((q <= 0)%Q -> (inject_Z z - 1 < q)%Q /\ (q <= inject_Z z)%Q).

(** The polygon contains the point: the query answers inside or on an
    edge. *)
Definition contains `{Cv2} (poly : polygon) (pt : Z * Z) : Prop :=
  0 <= pointPolygonTest poly pt.

Module Ledger.

Definition lane_ids (self : LaneCounter.t) : list Z := (LaneCounter.lanes self).*1.

(** Track [tid] is in the counted set of [lane]. *)
Definition counted (self : LaneCounter.t) (lane tid : Z) : Prop :=
  exists ids, LaneCounter.tracked_ids self !! lane = Some ids /\ tid ∈ ids.

(** First attribution wins, as the specification has it: the per-lane counted
    sets are pairwise disjoint. *)
Definition first_attribution_wins (self : LaneCounter.t) : Prop :=
  forall L M T, L <> M -> counted self L T -> ~ counted self M T.

(** The ledger invariant: both dictionaries have exactly the configured
    lanes as keys, and each count is the size of the lane's set. *)
Record ok (self : LaneCounter.t) : Prop := Ok_ledger {
  ok_counts_dom : dom (LaneCounter.counts self) = list_to_set (lane_ids self);
  ok_ids_dom : dom (LaneCounter.tracked_ids self) = list_to_set (lane_ids self);
  ok_count : forall lane ids,
      LaneCounter.tracked_ids self !! lane = Some ids ->
      LaneCounter.counts self !! lane = Some (Z.of_nat (size ids))
  }.

End Ledger.

(** The three ways the loop body of [update_counts] can go. *)
Inductive step_case `{Cv2} (self : LaneCounter.t) (obj : tracked_object)
  : LaneCounter.t -> Prop :=
| step_outside :
    LaneCounter.assign_lane self (bbox obj) = None ->
    step_case self obj self
| step_seen L ids :
    LaneCounter.assign_lane self (bbox obj) = Some L ->
    LaneCounter.tracked_ids self !! L = Some ids ->
    track_id obj ∈ ids ->
    step_case self obj self
| step_new L ids :
    LaneCounter.assign_lane self (bbox obj) = Some L ->
    LaneCounter.tracked_ids self !! L = Some ids ->
    track_id obj ∉ ids ->
    step_case self obj
      {| LaneCounter.lanes := LaneCounter.lanes self;
         LaneCounter.counts :=
           <[L := Z.of_nat (size ids) + 1]> (LaneCounter.counts self);
         LaneCounter.tracked_ids :=
           <[L := {[track_id obj]} ∪ ids]> (LaneCounter.tracked_ids self) |}.

(** A whole call, and a whole run, as a chain of such steps. *)
Inductive steps `{Cv2} : LaneCounter.t -> list tracked_object -> LaneCounter.t -> Prop :=
| steps_nil self : steps self [] self
| steps_cons self obj self1 rest self2 :
    step_case self obj self1 -> steps self1 rest self2 ->
    steps self (obj :: rest) self2.

(** ** Vocabulary for the streaming run *)

(** The rows written to the CSV file, in order. *)
Fixpoint csv_rows (tr : list event) : list (list string) :=
  match tr with
  | [] => []
  | CsvRow row :: tr' => row :: csv_rows tr'
  | _ :: tr' => csv_rows tr'
  end.

(** How many times a resource is released, and acquired, in a trace. *)
Fixpoint releases (r : resource) (tr : list event) : nat :=
  match tr with
  | [] => 0
  | Release r' :: tr' => (if decide (r' = r) then 1 else 0) + releases r tr'
  | _ :: tr' => releases r tr'
  end.

Fixpoint acquires (r : resource) (tr : list event) : nat :=
  match tr with
  | [] => 0
  | Acquire r' :: tr' => (if decide (r' = r) then 1 else 0) + acquires r tr'
  | _ :: tr' => acquires r tr'
  end.

(** The frames written to the output video, by index. *)
Fixpoint written_frames (tr : list event) : list Z :=
  match tr with
  | [] => []
  | WriteFrame idx _ :: tr' => idx :: written_frames tr'
  | _ :: tr' => written_frames tr'
  end.

(** The record owed to a tracked object in frame [idx]: none when its
    centroid is in no lane, else its identifier, the lane, the frame index
    and the time [idx / fps] cut to whole seconds and printed. *)
Definition record_of `{Cv2} (lanes : list (Z * polygon)) (idx : Z) (fps : Q)
    (obj : tracked_object) : option (list string) :=
  match LaneCounter.first_lane lanes (LaneCounter.centroid (bbox obj)) with
  | Some lane_id =>
    Some [pretty (track_id obj); pretty lane_id; pretty idx;
          Utils.timedelta_str (Py.int (inject_Z idx / fps))]
  | None => None
  end.

(** The records owed to a frame: one per tracked object with a lane, in
    the order of the tracked objects. *)
Definition records_of `{Cv2} (lanes : list (Z * polygon)) (idx : Z) (fps : Q)
    (objs : list tracked_object) : list (list string) :=
  omap (record_of lanes idx fps) objs.

(** The records owed to consecutive frames, the first one having index
    [idx]. *)
Fixpoint records_from `{Cv2} (lanes : list (Z * polygon)) (idx : Z) (fps : Q)
    (objss : list (list tracked_object)) : list (list string) :=
  match objss with
  | [] => []
  | objs :: rest => records_of lanes idx fps objs ++ records_from lanes (idx + 1) fps rest
  end.

(** An event of the loop body: anything but taking or giving back a
    resource. *)
Definition body_event (e : event) : Prop :=
  match e with
  | Acquire _ | Release _ => False
  | _ => True
  end.

(** Every run of [m] only appends events satisfying [P] to the trace. *)
Definition emits {A} (P : event -> Prop) (m : VideoProcessor.M A) : Prop :=
  forall s, exists evs,
  VideoProcessor.trace (m s).1 = VideoProcessor.trace s ++ evs /\ Forall P evs.

(** The result of [run] by the way the loop was left. *)
Definition run_result (ex : VideoProcessor.loop_exit) : result unit :=
  match ex with
  | VideoProcessor.EndOfStream | VideoProcessor.UserQuit
  | VideoProcessor.Raised KeyboardInterrupt => Ok tt
  | VideoProcessor.Raised e => Raise e
  end.

(** The way the loop of the pipeline of [main] is left. *)
Definition pipeline_exit `{Cv2} (lanes : list (Z * polygon)) (preview : bool)
    (v : Main.video) : VideoProcessor.loop_exit :=
  (VideoProcessor.loop
   {| VideoProcessor.fps := Main.fps v;
      VideoProcessor.total_frames := Main.total_frames v;
      VideoProcessor.show_preview := preview |}
   Utils.log (Main.frames v)
   {| VideoProcessor.frame_idx := 0;
      VideoProcessor.lane_counter := LaneCounter.__init__ lanes;
      VideoProcessor.trace :=
        Utils.__init__ ++ VideoProcessor.__init__ ++ [Acquire ProgressBar] |}).2.

(** A frame during which nothing raises and the user does not quit. *)
Definition clean (self : VideoProcessor.t) (fi : VideoProcessor.frame_input) : Prop :=
  VideoProcessor.fault fi = None /\
  (VideoProcessor.show_preview self = true -> VideoProcessor.key_q fi = false).

(** ** Vocabulary for the detector, the lane layout and the ledger *)

(** A class identifier with its name, as [VEHICLE_CLASSES] pairs them. *)
Definition vehicle_class (id : Z) (name : string) : Prop :=
  (id = 2 /\ name = "car") \/ (id = 3 /\ name = "motorbike") \/
  (id = 5 /\ name = "bus") \/ (id = 7 /\ name = "truck").

(** The detection [detect_vehicles] makes of a YOLO box of a vehicle
    class. *)
Definition detection_of (b : Detector.yolo_box) (d : detection) : Prop :=
  det_bbox d = Detector.xyxy b /\ det_confidence d = Detector.conf b /\
  det_class_id d = Py.int (Detector.cls b) /\
  vehicle_class (det_class_id d) (det_class_name d).

(** The axis-parallel rectangle with corners [(x1, y1)] and [(x2, y2)],
    vertex by vertex as [define_dynamic_lanes] lists them. *)
Definition rectangle (x1 y1 x2 y2 : Z) : polygon :=
  [(x1, y1); (x2, y1); (x2, y2); (x1, y2)].

(** The containment query is right on rectangles: it answers inside or on
    an edge exactly for the points of the closed rectangle. *)
Definition answers_rectangles (cv : Cv2) : Prop :=
  forall x1 y1 x2 y2 px py,
    x1 < x2 -> y1 < y2 ->
    (0 <= pointPolygonTest (rectangle x1 y1 x2 y2) (px, py) <->
     x1 <= px <= x2 /\ y1 <= py <= y2).

(** The track identifiers of the objects of [objs] whose centroid resolves
    to lane [L]: [L] is the first lane, in configuration order, whose
    polygon holds it. *)
Definition attributed `{Cv2} (lanes : list (Z * polygon)) (L : Z)
    (objs : list tracked_object) : gset Z :=
  list_to_set
    (track_id <$>
       filter (fun obj =>
                 LaneCounter.first_lane lanes (LaneCounter.centroid (bbox obj)) = Some L)
              objs).

(** What [draw_lanes] draws for a lane showing [count]. *)
Definition lane_overlay (item : Z * polygon) (count : Z) : list overlay :=
  match item.2 with
  | (x, y) :: _ =>
      [Polylines item.2;
       PutText ("Lane " +:+ pretty item.1 +:+ ": " +:+ pretty count) (x, y - 10)]
  | [] => []
  end.

(** The calls of [pbar.update(1)] in a trace. *)
Fixpoint ticks (tr : list event) : nat :=
  match tr with
  | [] => 0
  | Progress :: tr' => S (ticks tr')
  | _ :: tr' => ticks tr'
  end.

(** An event that is neither a frame written nor a progress tick, nor
    touches a resource. *)
Definition quiet (e : event) : Prop :=
  match e with
  | ImShow _ | CsvRow _ => True
  | _ => False
  end.

(** Two states whose traces hold the same written frames and ticks. *)
Definition same_output (s1 s2 : VideoProcessor.state) : Prop :=
  written_frames (VideoProcessor.trace s1) = written_frames (VideoProcessor.trace s2) /\
  ticks (VideoProcessor.trace s1) = ticks (VideoProcessor.trace s2).

(** ** Sample data *)

Module Sample.

(** The boxes of the reconciler scenarios, and one far from both. *)
Definition box_a : box := Box 0 0 10 10.
Definition box_near : box := Box 1 1 11 11.
Definition box_far : box := Box 20 20 30 30.

(** The lanes of the docstring of [LaneCounter.__init__]. *)
Definition lanes3 : list (Z * polygon) :=
  [(1, [(100, 300); (250, 300); (250, 720); (100, 720)]);
   (2, [(250, 300); (400, 300); (400, 720); (250, 720)]);
   (3, [(400, 300); (550, 300); (550, 720); (400, 720)])].

(** Track 1 of the self-test of [lane_counter.py], inside lane 1. *)
Definition car_in_lane1 : tracked_object :=
  {| track_id := 1; bbox := Box 120 350 200 450;
     confidence := Missing; class_id := Missing; class_name := Value "car" |}.

(** The same track one frame later, its box now inside lane 2. *)
Definition car_in_lane2 : tracked_object :=
  {| track_id := 1; bbox := Box 300 360 370 460;
     confidence := Missing; class_id := Missing; class_name := Value "car" |}.

(** A box whose centroid (250, 400) lies on the edge lanes 1 and 2 share. *)
Definition on_edge : box := Box 240 350 260 450.

(** A frame with one car, detected and tracked inside lane 1. *)
Definition frame_car : VideoProcessor.frame_input :=
  {| VideoProcessor.detections := [Detection (Box 120 350 200 450) (9 # 10) 2 "car"];
   VideoProcessor.tracks := [Track (Box 120 350 200 450) 1];
   VideoProcessor.key_q := false;
   VideoProcessor.fault := None |}.

(** The same frame, with the user pressing q in the preview. *)
Definition frame_quit : VideoProcessor.frame_input :=
  {| VideoProcessor.detections := VideoProcessor.detections frame_car;
   VideoProcessor.tracks := VideoProcessor.tracks frame_car;
   VideoProcessor.key_q := true;
   VideoProcessor.fault := None |}.

(** The same frame, interrupted (Ctrl-C) as the first record is about to be
    written. *)
Definition frame_interrupted : VideoProcessor.frame_input :=
  {| VideoProcessor.detections := VideoProcessor.detections frame_car;
   VideoProcessor.tracks := VideoProcessor.tracks frame_car;
   VideoProcessor.key_q := false;
   VideoProcessor.fault := Some (VideoProcessor.AtLog 0, KeyboardInterrupt) |}.

(** The same frame, on which the detector raises. *)
Definition frame_detector_fails : VideoProcessor.frame_input :=
  {| VideoProcessor.detections := VideoProcessor.detections frame_car;
   VideoProcessor.tracks := VideoProcessor.tracks frame_car;
   VideoProcessor.key_q := false;
   VideoProcessor.fault := Some (VideoProcessor.AtDetect, RuntimeError) |}.

(** A 640x720 video at 30 frames per second. *)
Definition video (frames : list VideoProcessor.frame_input) : Main.video :=
  {| Main.width := 640; Main.height := 720; Main.fps := 30;
   Main.total_frames := Z.of_nat (length frames); Main.frames := frames |}.

(** The tracked object [Tracker.update] makes of the car of [frame_car]. *)
Definition tracked_car : tracked_object :=
  {| track_id := 1; bbox := Box 120 350 200 450;
   confidence := Value (9 # 10); class_id := Value 2; class_name := Value "car" |}.

(** A frame with one car, detected and tracked inside lane 2. *)
Definition frame_lane2 : VideoProcessor.frame_input :=
  {| VideoProcessor.detections := [Detection (Box 300 360 370 460) (85 # 100) 2 "car"];
   VideoProcessor.tracks := [Track (Box 300 360 370 460) 1];
   VideoProcessor.key_q := false;
   VideoProcessor.fault := None |}.

(** A box whose centroid (213, 400) lies on the edge the first two lanes
    of a 640x720 video share. *)
Definition on_main_edge : box := Box 203 350 223 450.

(** The lanes [main] lays out on a 640x720 video. *)
Definition main_lanes : list (Z * polygon) :=
  [(1, [(0, 288); (213, 288); (213, 720); (0, 720)]);
   (2, [(213, 288); (426, 288); (426, 720); (213, 720)]);
   (3, [(426, 288); (639, 288); (639, 720); (426, 720)])].

End Sample.

(* ===================================================================== *)
(** * Properties *)
(* ===================================================================== *)

(** ** Intersection over union *)

Section Iou.
#[local] Open Scope Q_scope.

Lemma Qmax0_pos w : 0 < w -> Qmax 0 w == w.
Proof. intros Hw. apply Q.max_r. lra. Qed.

Lemma Qmax0_nonpos w : w <= 0 -> Qmax 0 w == 0.
Proof. intros Hw. apply Q.max_l. exact Hw. Qed.

Lemma covers_meet a b p : covers (meet a b) p <-> covers a p /\ covers b p.
Proof.
  unfold covers, meet; simpl.
  destruct (Q.max_spec (bx1 a) (bx1 b)) as [[? ->]|[? ->]],
           (Q.max_spec (by1 a) (by1 b)) as [[? ->]|[? ->]],
           (Q.min_spec (bx2 a) (bx2 b)) as [[? ->]|[? ->]],
           (Q.min_spec (by2 a) (by2 b)) as [[? ->]|[? ->]]; lra.
Qed.

Lemma overlap_iff a b :
  overlap a b <->
  0 < bx2 (meet a b) - bx1 (meet a b) + 1 /\
  0 < by2 (meet a b) - by1 (meet a b) + 1.
Proof.
  split.
  - intros [p Hp]. apply covers_meet in Hp. unfold covers in Hp. lra.
  - intros [Hw Hh]. exists (bx1 (meet a b), by1 (meet a b)).
    apply covers_meet. unfold covers; simpl in *. lra.
Qed.

Lemma interArea_meet a b :
  overlap a b -> Tracker.interArea a b == box_area (meet a b).
Proof.
  intros [Hw Hh]%overlap_iff. unfold Tracker.interArea, box_area. simpl in *.
  rewrite (Qmax0_pos _ Hw), (Qmax0_pos _ Hh). reflexivity.
Qed.

Lemma interArea_disjoint a b : ~ overlap a b -> Tracker.interArea a b == 0.
Proof.
  intros Hn. unfold Tracker.interArea.
  set (w := Qmin (bx2 a) (bx2 b) - Qmax (bx1 a) (bx1 b) + 1).
  set (h := Qmin (by2 a) (by2 b) - Qmax (by1 a) (by1 b) + 1).
  destruct (Qlt_le_dec 0 w) as [Hw|Hw].
  - destruct (Qlt_le_dec 0 h) as [Hh|Hh].
    + exfalso. apply Hn, overlap_iff. simpl. split; assumption.
    + rewrite (Qmax0_nonpos h Hh). ring.
  - rewrite (Qmax0_nonpos w Hw). ring.
Qed.

Lemma box_area_pos a : (exists p, covers a p) -> 0 < box_area a.
Proof.
  intros [p Hp]. unfold covers in Hp. unfold box_area.
  apply Qmult_lt_0_compat; lra.
Qed.

Lemma meet_area_le a b : overlap a b -> box_area (meet a b) <= box_area a.
Proof.
  intros Ho. pose proof Ho as [Hw Hh]%overlap_iff.
  unfold box_area. simpl in *.
  pose proof (Q.le_min_l (bx2 a) (bx2 b)). pose proof (Q.le_max_l (bx1 a) (bx1 b)).
  pose proof (Q.le_min_l (by2 a) (by2 b)). pose proof (Q.le_max_l (by1 a) (by1 b)).
  apply Qmult_le_compat_nonneg; split; lra.
Qed.

Lemma interArea_zero_iff a b : Tracker.interArea a b == 0 <-> ~ overlap a b.
Proof.
  split; [|apply interArea_disjoint].
  intros Hz Ho. pose proof (interArea_meet a b Ho) as Hm.
  assert (0 < box_area (meet a b)).
  { apply box_area_pos. destruct Ho as [p Hp]. exists p. by apply covers_meet. }
  lra.
Qed.

Lemma union_area_pos a b :
  overlap a b -> 0 < box_area a + box_area b - Tracker.interArea a b.
Proof.
  intros Ho. rewrite (interArea_meet a b Ho).
  pose proof (meet_area_le a b Ho).
  assert (0 < box_area b).
  { apply box_area_pos. destruct Ho as [p [_ Hp]]. by exists p. }
  lra.
Qed.

Lemma iou_path_disjoint a b :
  ~ overlap a b -> Tracker.iou_path a b = Tracker.ReturnZero.
Proof.
  intros Hn. unfold Tracker.iou_path.
  apply interArea_disjoint in Hn. apply Qeq_bool_iff in Hn. by rewrite Hn.
Qed.

Lemma iou_path_overlap a b :
  overlap a b ->
  Tracker.iou_path a b =
    Tracker.Divide (Tracker.interArea a b)
      (box_area a + box_area b - Tracker.interArea a b).
Proof.
  intros Ho. unfold Tracker.iou_path.
  destruct (Qeq_bool (Tracker.interArea a b) 0) eqn:E; [|done].
  apply Qeq_bool_iff, interArea_zero_iff in E. contradiction.
Qed.

Lemma compute_iou_overlap a b :
  overlap a b ->
  Tracker._compute_iou a b =
    Ok (Tracker.interArea a b / (box_area a + box_area b - Tracker.interArea a b)).
Proof.
  intros Ho. unfold Tracker._compute_iou. rewrite (iou_path_overlap a b Ho).
  unfold Py.truediv.
  destruct (Qeq_bool _ 0) eqn:E; [|done].
  apply Qeq_bool_iff in E. pose proof (union_area_pos a b Ho). lra.
Qed.

(** The division of [_compute_iou] never divides by zero. *)
Lemma compute_iou_total a b : exists q, Tracker._compute_iou a b = Ok q.
Proof.
  destruct (Qeq_bool (Tracker.interArea a b) 0) eqn:E.
  - exists 0. unfold Tracker._compute_iou, Tracker.iou_path. by rewrite E.
  - eexists. apply compute_iou_overlap.
    destruct (Qlt_le_dec 0 (bx2 (meet a b) - bx1 (meet a b) + 1)) as [Hw|Hw];
    [destruct (Qlt_le_dec 0 (by2 (meet a b) - by1 (meet a b) + 1)) as [Hh|Hh]|].
    + by apply overlap_iff.
    + exfalso. apply Qeq_bool_neq in E. apply E. unfold Tracker.interArea.
      simpl in Hh. rewrite (Qmax0_nonpos _ Hh). ring.
    + exfalso. apply Qeq_bool_neq in E. apply E. unfold Tracker.interArea.
      simpl in Hw. rewrite (Qmax0_nonpos _ Hw). ring.
Qed.

Lemma valid_overlap_self a : valid_box a -> overlap a a.
Proof.
  intros [Hx Hy]. exists (bx1 a, by1 a). unfold covers; simpl. lra.
Qed.

Lemma meet_self_area a : box_area (meet a a) == box_area a.
Proof.
  unfold box_area, meet; simpl. by rewrite !Q.max_id, !Q.min_id.
Qed.

End Iou.

(** For boxes with integer coordinates, overlapping is sharing a pixel. *)
Lemma overlap_pixel_boxes (ax1 ay1 ax2 ay2 bx1' by1' bx2' by2' : Z) :
  overlap (pixel_box ax1 ay1 ax2 ay2) (pixel_box bx1' by1' bx2' by2') <->
  exists px py,
    has_pixel ax1 ay1 ax2 ay2 px py /\ has_pixel bx1' by1' bx2' by2' px py.
Proof.
  unfold overlap, covers, has_pixel, pixel_box; simpl. split.
  - intros ([qx qy] & Ha & Hb). simpl in *.
    exists (Qfloor qx), (Qfloor qy).
    pose proof (Qfloor_le qx). pose proof (Qfloor_le qy).
    assert (forall (z : Z) (q : Q), (inject_Z z <= q)%Q -> z <= Qfloor q) as Hlo.
    { intros z q Hq. rewrite <- (Qfloor_Z z). by apply Qfloor_resp_le. }
    assert (forall (z : Z) (q : Q), (q < inject_Z z + 1)%Q -> Qfloor q <= z) as Hhi.
    { intros z q Hq. pose proof (Qfloor_le q) as Hf.
      assert (inject_Z (Qfloor q) < inject_Z (z + 1))%Q as Hlt.
      { rewrite inject_Z_plus. change (inject_Z 1) with 1%Q. lra. }
      rewrite <- Zlt_Qlt in Hlt. lia. }
    destruct Ha as (? & ? & ? & ?), Hb as (? & ? & ? & ?).
    repeat split; auto.
  - intros (px & py & [[? ?] [? ?]] & [[? ?] [? ?]]).
    exists (inject_Z px, inject_Z py). simpl.
    assert (forall z w, z <= w -> (inject_Z z <= inject_Z w)%Q) as Hle
      by (intros z w Hzw; by rewrite <- Zle_Qle).
    assert (forall z w, z <= w -> (inject_Z z < inject_Z w + 1)%Q) as Hlt.
    { intros z w Hzw. rewrite Zle_Qle in Hzw. lra. }
    repeat split; auto.
Qed.

(** Under the convention a box reaches one unit past its far corner, so
    two boxes less than one unit apart overlap: here on 10.5 <= x < 11. *)
Example iou_half_unit_apart :
  exists q,
    Tracker._compute_iou Sample.box_a (Box (21 # 2) 0 20 10) = Ok q /\
    (q == 1 # 42)%Q.
Proof. eexists. split; reflexivity. Qed.

(** C7. [_compute_iou] of a valid box with itself is 1; of two boxes that do
    not overlap (under the inclusive pixel-edge convention, where a box
    reaches one unit past its far corner) it is 0 and is returned by the
    early exit, before any division; and of two overlapping boxes it is the
    area of the common part over the sum of the two areas less the common
    part, every area being (x2 - x1 + 1) * (y2 - y1 + 1). *)
Theorem compute_iou_correct (a b : box) :
  (valid_box a -> exists q, Tracker._compute_iou a a = Ok q /\ (q == 1)%Q) /\
  (~ overlap a b ->
     Tracker.iou_path a b = Tracker.ReturnZero /\
     Tracker._compute_iou a b = Ok 0%Q) /\
  (overlap a b ->
     exists q, Tracker._compute_iou a b = Ok q /\
       (q == box_area (meet a b)
             / (box_area a + box_area b - box_area (meet a b)))%Q).
Proof.
  split; [|split].
  - intros Hv. pose proof (valid_overlap_self a Hv) as Ho.
    eexists. split; [apply (compute_iou_overlap a a Ho)|].
    rewrite (interArea_meet a a Ho), meet_self_area.
    assert (0 < box_area a)%Q
      by (apply box_area_pos; destruct Ho as [p [? _]]; eauto).
    field. lra.
  - intros Hn. split; [by apply iou_path_disjoint|].
    unfold Tracker._compute_iou. by rewrite iou_path_disjoint.
  - intros Ho. eexists. split; [apply (compute_iou_overlap a b Ho)|].
    by rewrite (interArea_meet a b Ho).
Qed.

Lemma compute_iou_correct_witness :
  (exists q, Tracker._compute_iou Sample.box_a Sample.box_a = Ok q /\ (q == 1)%Q) /\
  (Tracker.iou_path Sample.box_a Sample.box_far = Tracker.ReturnZero /\
   Tracker._compute_iou Sample.box_a Sample.box_far = Ok 0%Q) /\
  (exists q, Tracker._compute_iou Sample.box_a Sample.box_near = Ok q /\
     (q == box_area (meet Sample.box_a Sample.box_near)
           / (box_area Sample.box_a + box_area Sample.box_near
              - box_area (meet Sample.box_a Sample.box_near)))%Q).
Proof.
  split; [|split].
  - apply (compute_iou_correct Sample.box_a Sample.box_a). split; reflexivity.
  - apply (compute_iou_correct Sample.box_a Sample.box_far).
    intros [p [Ha Hb]]. unfold covers in Ha, Hb. simpl in Ha, Hb. lra.
  - apply (compute_iou_correct Sample.box_a Sample.box_near).
    exists (1, 1)%Q. unfold covers. simpl. lra.
Defined.

(** ** Reconciliation of tracks with detections *)

Lemma gt_half_iff q : Py.gt q (1 # 2) = true <-> (1 # 2 < q)%Q.
Proof.
  unfold Py.gt. rewrite negb_true_iff.
  destruct (Qle_bool q (1 # 2)) eqn:E.
  - apply Qle_bool_iff in E. split; [done|]. intros H. exfalso. lra.
  - split; [|done]. intros _.
    destruct (Qlt_le_dec (1 # 2) q) as [H|H]; [done|].
    apply Qle_bool_iff in H. congruence.
Qed.

(** What [_compute_iou] returns is the IoU of the specification. *)
Lemma compute_iou_spec a b q :
  Tracker._compute_iou a b = Ok q -> spec_iou a b q.
Proof.
  intros Hq. destruct (Qeq_bool (Tracker.interArea a b) 0) eqn:E.
  - right. unfold Tracker._compute_iou, Tracker.iou_path in Hq. rewrite E in Hq.
    injection Hq as <-. split; [|reflexivity].
    by apply interArea_zero_iff, Qeq_bool_iff.
  - assert (overlap a b) as Ho.
    { destruct (Qlt_le_dec 0 (bx2 (meet a b) - bx1 (meet a b) + 1)) as [Hw|Hw];
      [destruct (Qlt_le_dec 0 (by2 (meet a b) - by1 (meet a b) + 1)) as [Hh|Hh]|].
      - by apply overlap_iff.
      - exfalso. apply Qeq_bool_neq in E. apply E. unfold Tracker.interArea.
        simpl in Hh. rewrite (Qmax0_nonpos _ Hh). ring.
      - exfalso. apply Qeq_bool_neq in E. apply E. unfold Tracker.interArea.
        simpl in Hw. rewrite (Qmax0_nonpos _ Hw). ring. }
    left. split; [done|].
    rewrite (compute_iou_overlap a b Ho) in Hq. injection Hq as <-.
    by rewrite (interArea_meet a b Ho).
Qed.

Lemma spec_iou_unique a b q q' : spec_iou a b q -> spec_iou a b q' -> (q == q')%Q.
Proof.
  intros [[Ho Hq] | [Hn Hq]] [[Ho' Hq'] | [Hn' Hq']]; try contradiction;
    rewrite Hq, Hq'; reflexivity.
Qed.

Lemma iou_exceeds_gt d tb q :
  Tracker._compute_iou (det_bbox d) tb = Ok q ->
  iou_exceeds d tb <-> Py.gt q (1 # 2) = true.
Proof.
  intros Hq%compute_iou_spec. rewrite gt_half_iff. split.
  - intros (q' & Hq' & Hlt). by rewrite (spec_iou_unique _ _ _ _ Hq Hq').
  - intros Hlt. by exists q.
Qed.

(** In the matching scenario of the specification the overlap is 100 of
    the 142 pixels of the union. *)
Example scenario_iou_exceeds :
  spec_iou Sample.box_a Sample.box_near (100 # 142) /\
  iou_exceeds (Detection Sample.box_a (9 # 10) 2 "car") Sample.box_near.
Proof.
  assert (spec_iou Sample.box_a Sample.box_near (100 # 142)) as Hq.
  { left. split; [|reflexivity].
    exists (1, 1)%Q. unfold covers; simpl. lra. }
  split; [done|]. exists (100 # 142). split; [done | reflexivity].
Qed.

(** The scan stops at the first detection over the threshold. *)
Lemma find_match_first (detections : list detection) (tb : box) :
  (exists pre d post,
      detections = pre ++ d :: post /\
      Forall (fun d' => ~ iou_exceeds d' tb) pre /\
      iou_exceeds d tb /\
      Tracker.find_match detections tb = Ok (Some d)) \/
  (Forall (fun d' => ~ iou_exceeds d' tb) detections /\
   Tracker.find_match detections tb = Ok None).
Proof.
  induction detections as [|det rest IH]; simpl.
  - right. split; [constructor | reflexivity].
  - destruct (compute_iou_total (det_bbox det) tb) as [q Hq].
    rewrite Hq. simpl.
    pose proof (iou_exceeds_gt det tb q Hq) as Hex.
    destruct (Py.gt q (1 # 2)) eqn:Hgt.
    + left. exists [], det, rest. repeat split; [constructor | by apply Hex].
    + assert (~ iou_exceeds det tb) as Hno.
      { intros H. apply Hex in H. discriminate. }
      destruct IH as [(pre & d & post & -> & Hpre & Hd & Hfind) | [Hall Hfind]].
      * left. exists (det :: pre), d, post.
        repeat split; [by constructor | done | done].
      * right. split; [by constructor | done].
Qed.

Lemma find_match_reconciled (detections : list detection) (t : track) :
  exists m, Tracker.find_match detections (trk_bbox t) = Ok m /\
            reconciled detections t (Tracker.make_tracked t m).
Proof.
  destruct (find_match_first detections (trk_bbox t))
    as [(pre & d & post & Heq & Hpre & Hd & Hfind) | [Hall Hfind]].
  - exists (Some d). split; [done|]. by eapply reconciled_first.
  - exists None. split; [done|]. by apply reconciled_none.
Qed.

(** [update] always returns: no IoU it computes divides by zero. *)
Lemma update_returns (detections : list detection) (tracks : list track) :
  exists objs, Tracker.update detections tracks = Ok objs.
Proof.
  induction tracks as [|t rest [objs IH]]; simpl; [by eexists|].
  destruct (find_match_first detections (trk_bbox t))
    as [(_ & d & _ & _ & _ & _ & ->) | [_ ->]]; rewrite IH; by eexists.
Qed.

(** C6. [update] always returns, with one tracked object per tracked box
    and in the same order; each object keeps the box and the (integer)
    identifier of its track and carries the confidence and class of the
    first detection, in list order, whose IoU with the box (the overlap
    area over the union area of the specification, whatever the code
    computes) exceeds 0.5, or null confidence and class when no detection
    does.  With no detections at all, the track 7 at [1, 1, 11, 11] comes
    back unlabelled; with the car detected at [0, 0, 10, 10] it comes back
    as a car with confidence 0.9. *)
Theorem update_reconciles (detections : list detection) (tracks : list track) :
  (exists objs,
      Tracker.update detections tracks = Ok objs /\
      Forall2 (reconciled detections) tracks objs) /\
  Tracker.update [] [Track Sample.box_near 7] =
    Ok [ {| track_id := 7; bbox := Sample.box_near;
            confidence := Null; class_id := Null; class_name := Null |} ] /\
  Tracker.update [Detection Sample.box_a (9 # 10) 2 "car"] [Track Sample.box_near 7] =
    Ok [ {| track_id := 7; bbox := Sample.box_near;
            confidence := Value (9 # 10); class_id := Value 2;
            class_name := Value "car" |} ].
Proof.
  split; [|split; reflexivity].
  induction tracks as [|t rest IH]; simpl.
  - exists []. split; [reflexivity | constructor].
  - destruct (find_match_reconciled detections t) as (m & Hm & Hrec).
    destruct IH as (objs & Hobjs & Hall).
    rewrite Hm, Hobjs. simpl.
    eexists. split; [reflexivity|]. by constructor.
Qed.

(** The first reconciler scenario of the specification. *)
Example update_scenario_match :
  Tracker.update [Detection (Box 0 0 10 10) (9 # 10) 2 "car"]
                 [Track (Box 1 1 11 11) 7] =
    Ok [ {| track_id := 7; bbox := Box 1 1 11 11;
            confidence := Value (9 # 10); class_id := Value 2;
            class_name := Value "car" |} ].
Proof. reflexivity. Qed.

(** ** Lane membership *)

Lemma int_truncates (q : Q) : truncates q (Py.int q).
Proof.
  destruct q as [n d]. unfold truncates, Py.int, Qle, Qlt. simpl.
  pose proof (Z.quot_rem' n (Z.pos d)) as Hqr.
  split; intros Hs.
  - assert (0 <= n) as Hn by lia.
    pose proof (Z.rem_bound_pos n (Z.pos d) Hn ltac:(lia)). nia.
  - assert (n <= 0) as Hn by lia.
    pose proof (Z.rem_bound_pos_neg n (Z.pos d) ltac:(lia) Hn). nia.
Qed.

Section Membership.
Context `{Cv2}.

Lemma first_lane_some items pt L :
  LaneCounter.first_lane items pt = Some L <->
  exists pre poly post,
    items = pre ++ (L, poly) :: post /\
    contains poly pt /\
    Forall (fun it => ~ contains it.2 pt) pre.
Proof.
  unfold contains. induction items as [|[l p] rest IH]; simpl.
  - split; [done|]. intros (pre & ? & ? & Heq & _). by destruct pre.
  - destruct (0 <=? pointPolygonTest p pt) eqn:E.
    + apply Z.leb_le in E. split.
      * intros [= <-]. exists [], p, rest. repeat split; [done | constructor].
      * intros (pre & poly & post & Heq & Hin & Hpre).
        destruct pre as [|it pre]; simplify_eq/=; [done|].
        apply Forall_cons in Hpre as [Hno _]. simpl in Hno. contradiction.
    + apply Z.leb_gt in E. rewrite IH. split.
      * intros (pre & poly & post & -> & Hin & Hpre).
        exists ((l, p) :: pre), poly, post. repeat split; [done|].
        constructor; [simpl; lia | done].
      * intros (pre & poly & post & Heq & Hin & Hpre).
        destruct pre as [|it pre]; simplify_eq/=; [lia|].
        apply Forall_cons in Hpre as [_ Hpre].
        by exists pre, poly, post.
Qed.

Lemma first_lane_none items pt :
  LaneCounter.first_lane items pt = None <->
  Forall (fun it => ~ contains it.2 pt) items.
Proof.
  unfold contains. induction items as [|[l p] rest IH]; simpl.
  - split; [constructor | done].
  - destruct (0 <=? pointPolygonTest p pt) eqn:E.
    + apply Z.leb_le in E. split; [done|].
      intros [Hno _]%Forall_cons. simpl in Hno. contradiction.
    + apply Z.leb_gt in E. rewrite IH. split.
      * intros Hrest. constructor; [simpl; lia | done].
      * by intros [_ ?]%Forall_cons.
Qed.

Lemma assign_lane_configured self b L :
  LaneCounter.assign_lane self b = Some L -> L ∈ Ledger.lane_ids self.
Proof.
  unfold LaneCounter.assign_lane, Ledger.lane_ids.
  intros (pre & poly & post & -> & _)%first_lane_some.
  rewrite fmap_app, fmap_cons. simpl. set_solver.
Qed.

(** With identifiers ascending in configuration order, the first lane in
    order is the one with the least identifier. *)
Lemma first_lane_least items pt L :
  StronglySorted Z.lt items.*1 ->
  LaneCounter.first_lane items pt = Some L ->
  forall M poly, (M, poly) ∈ items -> contains poly pt -> L <= M.
Proof.
  intros Hsort (pre & p & post & -> & Hin & Hpre)%first_lane_some M poly HM HMin.
  apply elem_of_app in HM as [HM | HM].
  - rewrite Forall_forall in Hpre. specialize (Hpre _ HM). simpl in Hpre.
    contradiction.
  - apply elem_of_cons in HM as [[= -> ->] | HM]; [lia|].
    rewrite fmap_app, fmap_cons in Hsort.
    apply StronglySorted_app_1_r in Hsort.
    apply StronglySorted_inv in Hsort as [_ Hall].
    rewrite Forall_forall in Hall. simpl in Hall.
    assert (M ∈ post.*1) as HMp.
    { apply list_elem_of_fmap. by exists (M, poly). }
    specialize (Hall _ HMp). lia.
Qed.

End Membership.

(** The lanes [define_dynamic_lanes] builds are numbered 1, 2, ... in
    configuration order. *)
Lemma define_dynamic_lanes_ascending width height num_lanes ratio lanes :
  Main.define_dynamic_lanes width height num_lanes ratio = Ok lanes ->
  StronglySorted Z.lt lanes.*1.
Proof.
  unfold Main.define_dynamic_lanes. destruct (num_lanes =? 0); [done|].
  intros [= <-]. rewrite <- list_fmap_compose.
  unfold seqZ. rewrite <- list_fmap_compose.
  generalize (Z.to_nat num_lanes) as n. generalize 0%nat as a.
  intros a n. revert a. induction n as [|n IH]; intros a; simpl.
  - constructor.
  - constructor; [apply IH|].
    apply Forall_fmap, Forall_forall. intros i Hi%elem_of_seq. simpl. lia.
Qed.

(** ** The attribution ledger *)

Lemma lookup_const_map {V} (c : V) (items : list (Z * polygon)) (k : Z) :
  (list_to_map ((fun l => (l.1, c)) <$> items) : gmap Z V) !! k =
    if decide (k ∈ items.*1) then Some c else None.
Proof.
  induction items as [|[l p] rest IH].
  - done.
  - rewrite !fmap_cons. cbn [list_to_map foldr fst uncurry].
    destruct (decide (l = k)) as [->|Hne].
    + rewrite lookup_insert_eq. rewrite decide_True; [done|]. by left.
    + rewrite lookup_insert_ne by done. rewrite IH.
      destruct (decide (k ∈ rest.*1)) as [Hin|Hout].
      * rewrite decide_True; [done|]. by right.
      * rewrite decide_False; [done|].
        intros [?|?]%elem_of_cons; [congruence|done].
Qed.

Lemma dom_const_map {V} (c : V) (items : list (Z * polygon)) :
  dom (list_to_map ((fun l => (l.1, c)) <$> items) : gmap Z V) =
    list_to_set items.*1.
Proof.
  apply set_eq. intros k. rewrite elem_of_dom, lookup_const_map.
  rewrite elem_of_list_to_set.
  destruct (decide (k ∈ items.*1)) as [Hin|Hout].
  - split; [done|]. intros _. by eexists.
  - split; [|done]. by intros [? ?].
Qed.

Lemma init_ok (lanes0 : list (Z * polygon)) :
  Ledger.ok (LaneCounter.__init__ lanes0).
Proof.
  split; unfold Ledger.lane_ids; simpl.
  - apply dom_const_map.
  - apply dom_const_map.
  - intros lane ids. rewrite !lookup_const_map.
    destruct (decide (lane ∈ lanes0.*1)); [|done].
    intros [= <-]. by rewrite size_empty.
Qed.

Section LedgerSteps.
Context `{Cv2}.

Lemma configured_lookup self L :
  Ledger.ok self -> L ∈ Ledger.lane_ids self ->
  exists ids, LaneCounter.tracked_ids self !! L = Some ids /\
              LaneCounter.counts self !! L = Some (Z.of_nat (size ids)).
Proof.
  intros Hok HL.
  assert (L ∈ dom (LaneCounter.tracked_ids self)) as Hd.
  { rewrite (Ledger.ok_ids_dom _ Hok). by apply elem_of_list_to_set. }
  apply elem_of_dom in Hd as [ids Hids].
  exists ids. split; [done|]. by apply (Ledger.ok_count _ Hok).
Qed.

(** No lookup of the loop body misses its key. *)
Lemma count_object_step self obj :
  Ledger.ok self ->
  exists self', LaneCounter.count_object self obj = Ok self' /\
                step_case self obj self'.
Proof.
  intros Hok. unfold LaneCounter.count_object.
  destruct (LaneCounter.assign_lane self (bbox obj)) as [L|] eqn:HL.
  - destruct (configured_lookup self L Hok) as (ids & Hids & Hc).
    { by eapply assign_lane_configured. }
    rewrite Hids. destruct (decide (track_id obj ∈ ids)) as [Hin|Hout].
    + exists self. split; [done|]. by eapply step_seen.
    + rewrite Hc. eexists. split; [done|]. by eapply step_new.
  - exists self. split; [done|]. by apply step_outside.
Qed.

Lemma step_case_ok self obj self' :
  Ledger.ok self -> step_case self obj self' ->
  Ledger.ok self' /\ LaneCounter.lanes self' = LaneCounter.lanes self.
Proof.
  intros Hok [HL | L ids HL Hids Hin | L ids HL Hids Hout]; [done | done |].
  split; [|done].
  assert (L ∈ dom (LaneCounter.tracked_ids self)) as Hd1 by (apply elem_of_dom; eauto).
  assert (L ∈ dom (LaneCounter.counts self)) as Hd2.
  { rewrite (Ledger.ok_counts_dom _ Hok), <- (Ledger.ok_ids_dom _ Hok). done. }
  pose proof (Ledger.ok_counts_dom _ Hok) as Hdc.
  pose proof (Ledger.ok_ids_dom _ Hok) as Hdi.
  unfold Ledger.lane_ids in Hdc, Hdi.
  split; unfold Ledger.lane_ids; simpl.
  - rewrite dom_insert_L, <- Hdc. set_solver.
  - rewrite dom_insert_L, <- Hdi. set_solver.
  - intros lane ids'. destruct (decide (L = lane)) as [<-|Hne].
    + rewrite !lookup_insert_eq. intros [= <-]. f_equal.
      rewrite size_union by set_solver. rewrite size_singleton. lia.
    + rewrite !lookup_insert_ne by done. apply (Ledger.ok_count _ Hok).
Qed.

(** The counted sets after one object: what was counted stays counted,
    and the only addition is the object's identifier to the lane its
    centroid resolves to. *)
Lemma step_case_counted self obj self' L :
  step_case self obj self' ->
  LaneCounter.assign_lane self (bbox obj) = Some L ->
  forall L' T',
    Ledger.counted self' L' T' <->
    Ledger.counted self L' T' \/ (L' = L /\ T' = track_id obj).
Proof.
  intros [HL | M ids HL Hids Hin | M ids HL Hids Hout] HL' L' T';
    rewrite HL in HL'; simplify_eq.
  - split; [by left|]. intros [?|[-> ->]]; [done|]. by exists ids.
  - unfold Ledger.counted. simpl. destruct (decide (L = L')) as [<-|Hne].
    + rewrite lookup_insert_eq. split.
      * intros (ids' & [= <-] & Hin). set_solver.
      * intros [(ids' & Hids' & Hin) | [_ ->]]; eexists; split; try done;
          set_solver.
    + rewrite lookup_insert_ne by done. split; [by left|].
      intros [?|[-> _]]; done.
Qed.

Lemma step_case_outside self obj self' :
  step_case self obj self' ->
  LaneCounter.assign_lane self (bbox obj) = None -> self' = self.
Proof. intros [HL | M ids HL Hids Hin | M ids HL Hids Hout] HL'; congruence. Qed.

Lemma step_case_mono self obj self' L T :
  step_case self obj self' -> Ledger.counted self L T -> Ledger.counted self' L T.
Proof.
  intros Hstep Hc.
  destruct (LaneCounter.assign_lane self (bbox obj)) as [M|] eqn:HM.
  - apply (step_case_counted _ _ _ M Hstep HM). by left.
  - by rewrite (step_case_outside _ _ _ Hstep HM).
Qed.

Lemma step_case_count_mono self obj self' lane c :
  Ledger.ok self -> step_case self obj self' ->
  LaneCounter.counts self !! lane = Some c ->
  exists c', LaneCounter.counts self' !! lane = Some c' /\ c <= c'.
Proof.
  intros Hok [HL | M ids HL Hids Hin | M ids HL Hids Hout] Hc;
    [exists c; split; [done|lia] .. |].
  simpl. destruct (decide (M = lane)) as [<-|Hne].
  - rewrite lookup_insert_eq. eexists. split; [done|].
    rewrite (Ledger.ok_count _ Hok _ _ Hids) in Hc. injection Hc as <-. lia.
  - rewrite lookup_insert_ne by done. exists c. split; [done|lia].
Qed.

(** A lane the object does not resolve to keeps its set and its count. *)
Lemma step_case_other_lane self obj self' lane :
  step_case self obj self' ->
  LaneCounter.assign_lane self (bbox obj) <> Some lane ->
  LaneCounter.tracked_ids self' !! lane = LaneCounter.tracked_ids self !! lane /\
  LaneCounter.counts self' !! lane = LaneCounter.counts self !! lane.
Proof.
  intros [HL | M ids HL Hids Hin | M ids HL Hids Hout] Hne; [done..|].
  simpl. rewrite !lookup_insert_ne by congruence. done.
Qed.

Lemma count_objects_steps self objs :
  Ledger.ok self ->
  exists self', LaneCounter.count_objects self objs = Ok self' /\
                steps self objs self' /\ Ledger.ok self'.
Proof.
  revert self. induction objs as [|obj rest IH]; intros self Hok; simpl.
  - exists self. split; [done | split; [constructor | done]].
  - destruct (count_object_step self obj Hok) as (self1 & -> & Hstep).
    destruct (step_case_ok _ _ _ Hok Hstep) as [Hok1 _].
    destruct (IH self1 Hok1) as (self2 & Hrest & Hsteps & Hok2).
    exists self2. split; [done | split; [by econstructor | done]].
Qed.

Lemma steps_lanes self objs self' :
  Ledger.ok self -> steps self objs self' ->
  LaneCounter.lanes self' = LaneCounter.lanes self.
Proof.
  intros Hok Hsteps. induction Hsteps as [|self obj self1 rest self2 Hstep _ IH];
    [done|].
  destruct (step_case_ok _ _ _ Hok Hstep) as [Hok1 Hl]. rewrite IH; done.
Qed.

Lemma steps_mono self objs self' L T :
  steps self objs self' -> Ledger.counted self L T -> Ledger.counted self' L T.
Proof.
  induction 1 as [|self obj self1 rest self2 Hstep _ IH]; [done|].
  intros Hc. apply IH. by eapply step_case_mono.
Qed.

Lemma steps_count_mono self objs self' lane c :
  Ledger.ok self -> steps self objs self' ->
  LaneCounter.counts self !! lane = Some c ->
  exists c', LaneCounter.counts self' !! lane = Some c' /\ c <= c'.
Proof.
  intros Hok Hsteps. revert c.
  induction Hsteps as [|self obj self1 rest self2 Hstep _ IH]; intros c Hc.
  - exists c. split; [done|lia].
  - destruct (step_case_count_mono _ _ _ _ _ Hok Hstep Hc) as (c1 & Hc1 & Hle).
    destruct (step_case_ok _ _ _ Hok Hstep) as [Hok1 _].
    destruct (IH Hok1 c1 Hc1) as (c2 & Hc2 & Hle2).
    exists c2. split; [done|lia].
Qed.

Lemma update_counts_ok self objs :
  Ledger.ok self ->
  exists self', LaneCounter.update_counts self objs =
                  Ok (self', LaneCounter.counts self') /\
                steps self objs self' /\ Ledger.ok self'.
Proof.
  intros Hok. unfold LaneCounter.update_counts.
  destruct (count_objects_steps self objs Hok) as (self' & -> & Hsteps & Hok').
  by exists self'.
Qed.

Lemma update_all_ok self calls :
  Ledger.ok self ->
  exists self', LaneCounter.update_all self calls = Ok self' /\
                steps self (concat calls) self' /\ Ledger.ok self'.
Proof.
  revert self. induction calls as [|objs rest IH]; intros self Hok; simpl.
  - exists self. split; [done | split; [constructor | done]].
  - destruct (update_counts_ok self objs Hok) as (self1 & -> & Hsteps & Hok1).
    simpl. destruct (IH self1 Hok1) as (self2 & Hrest & Hsteps2 & Hok2).
    exists self2. split; [done | split; [| done]].
    clear -Hsteps Hsteps2. induction Hsteps; [done|]. simpl.
    econstructor; [done|]. by apply IHHsteps.
Qed.

Lemma reached_ok lanes0 calls self :
  LaneCounter.update_all (LaneCounter.__init__ lanes0) calls = Ok self ->
  Ledger.ok self /\ LaneCounter.lanes self = lanes0.
Proof.
  intros Hrun.
  destruct (update_all_ok _ calls (init_ok lanes0)) as (self' & Hrun' & Hsteps & Hok).
  rewrite Hrun in Hrun'. injection Hrun' as <-. split; [done|].
  by rewrite (steps_lanes _ _ _ (init_ok lanes0) Hsteps).
Qed.

End LedgerSteps.

Section LedgerLog.
Context `{Cv2}.

Lemma assign_lane_lanes self self' b :
  LaneCounter.lanes self' = LaneCounter.lanes self ->
  LaneCounter.assign_lane self' b = LaneCounter.assign_lane self b.
Proof. unfold LaneCounter.assign_lane. by intros ->. Qed.

Lemma step_case_lanes self obj self' :
  step_case self obj self' -> LaneCounter.lanes self' = LaneCounter.lanes self.
Proof. by intros [| |]. Qed.

(** A call whose objects bring nothing new to [lane] leaves the lane's
    set and count as they were. *)
Lemma steps_lane_unchanged self objs self' lane :
  steps self objs self' ->
  (forall obj, obj ∈ objs ->
     LaneCounter.assign_lane self (bbox obj) = Some lane ->
     Ledger.counted self lane (track_id obj)) ->
  LaneCounter.tracked_ids self' !! lane = LaneCounter.tracked_ids self !! lane /\
  LaneCounter.counts self' !! lane = LaneCounter.counts self !! lane.
Proof.
  induction 1 as [|self obj self1 rest self2 Hstep Hrest IH]; intros Hseen;
    [done|].
  assert (LaneCounter.tracked_ids self1 !! lane = LaneCounter.tracked_ids self !! lane /\
          LaneCounter.counts self1 !! lane = LaneCounter.counts self !! lane)
    as [Hids Hcs].
  { destruct (decide (LaneCounter.assign_lane self (bbox obj) = Some lane))
      as [Heq|Hne]; [|by eapply step_case_other_lane].
    specialize (Hseen obj ltac:(left) Heq) as (ids & Hids & Hin).
    destruct Hstep as [HL | M ids' HL Hids' Hin' | M ids' HL Hids' Hout];
      [done | done |].
    rewrite HL in Heq. by simplify_eq. }
  rewrite <- Hids, <- Hcs. apply IH.
  intros obj' Hobj' HL'.
  rewrite (assign_lane_lanes self self1) in HL' by by eapply step_case_lanes.
  destruct (Hseen obj' ltac:(by right) HL') as (ids & Hi & Hin).
  exists ids. by rewrite Hids.
Qed.

(** The attributions logged from a state were not counted in it, and no
    attribution is logged twice. *)
Lemma counted_log_fresh self objs :
  Ledger.ok self ->
  NoDup (LaneCounter.counted_log self objs) /\
  forall e, e ∈ LaneCounter.counted_log self objs -> ~ Ledger.counted self e.1 e.2.
Proof.
  revert self. induction objs as [|obj rest IH]; intros self Hok; simpl.
  - split; [constructor | by intros e ?%elem_of_nil].
  - destruct (count_object_step self obj Hok) as (self1 & Hrun & Hstep).
    rewrite Hrun.
    destruct (step_case_ok _ _ _ Hok Hstep) as [Hok1 _].
    destruct (IH self1 Hok1) as [Hnd Hfresh].
    unfold LaneCounter.newly_counted.
    destruct Hstep as [HL | M ids HL Hids Hin | M ids HL Hids Hout].
    + rewrite HL. simpl. split; [done|]. done.
    + rewrite HL, Hids. rewrite decide_True by done. simpl. split; done.
    + rewrite HL, Hids. rewrite decide_False by done. simpl. split.
      * constructor; [|done]. intros Hin. apply (Hfresh _ Hin). simpl.
        exists ({[track_id obj]} ∪ ids). simpl. rewrite lookup_insert_eq.
        split; [done | set_solver].
      * intros e [->|He]%elem_of_cons.
        -- simpl. intros (ids' & Hids' & Hin'). congruence.
        -- intros Hc. apply (Hfresh e He).
           eapply step_case_mono; [|done]. by eapply step_new.
Qed.

(** Each logged attribution is one increment of its lane's count. *)
Lemma counted_log_counts self objs self' lane c :
  Ledger.ok self ->
  LaneCounter.count_objects self objs = Ok self' ->
  LaneCounter.counts self !! lane = Some c ->
  LaneCounter.counts self' !! lane =
    Some (c + Z.of_nat (length (filter (fun e => e.1 = lane)
                                       (LaneCounter.counted_log self objs)))).
Proof.
  revert self c. induction objs as [|obj rest IH]; intros self c Hok; simpl.
  - intros [= <-] ->. f_equal. lia.
  - destruct (count_object_step self obj Hok) as (self1 & Hrun & Hstep).
    rewrite Hrun. simpl. intros Hrest Hc.
    destruct (step_case_ok _ _ _ Hok Hstep) as [Hok1 _].
    unfold LaneCounter.newly_counted.
    destruct Hstep as [HL | M ids HL Hids Hin | M ids HL Hids Hout].
    + rewrite HL. simpl. by apply IH.
    + rewrite HL, Hids. rewrite decide_True by done. simpl. by apply IH.
    + rewrite HL, Hids. rewrite decide_False by done. simpl.
      rewrite filter_cons. simpl. destruct (decide (M = lane)) as [->|Hne].
      * rewrite (IH _ (c + 1) Hok1 Hrest).
        -- simpl. f_equal. lia.
        -- simpl. rewrite lookup_insert_eq.
           rewrite (Ledger.ok_count _ Hok _ _ Hids) in Hc. by injection Hc as <-.
      * apply (IH _ c Hok1 Hrest). simpl. by rewrite lookup_insert_ne.
Qed.

Lemma update_all_count_objects self calls :
  Ledger.ok self ->
  LaneCounter.update_all self calls = LaneCounter.count_objects self (concat calls).
Proof.
  revert self. induction calls as [|objs rest IH]; intros self Hok; [done|].
  simpl. destruct (update_counts_ok self objs Hok) as (self1 & Hrun & Hsteps & Hok1).
  rewrite Hrun. simpl. rewrite (IH _ Hok1). clear IH Hsteps.
  unfold LaneCounter.update_counts in Hrun.
  destruct (LaneCounter.count_objects self objs) as [s|] eqn:E; simplify_eq/=.
  revert self Hok E. induction objs as [|obj objs IHo]; intros self Hok E; simpl in *.
  - by simplify_eq.
  - destruct (count_object_step self obj Hok) as (s1 & Hs1 & Hstep).
    rewrite Hs1 in *. simpl in *.
    destruct (step_case_ok _ _ _ Hok Hstep) as [Hok' _]. by apply IHo.
Qed.

End LedgerLog.

(** C5. [assign_lane] takes the centroid with its coordinates truncated to
    integers, walks the lanes in configuration order and answers the first
    lane whose polygon contains the centroid, a point on an edge included;
    it answers [None] exactly when no polygon contains it; where polygons
    overlap the earlier lane wins, which is the lower identifier when the
    identifiers ascend in configuration order. *)
Theorem assign_lane_first_match `{Cv2} (self : LaneCounter.t) (b : box) :
  let pt := LaneCounter.centroid b in
  truncates ((bx1 b + bx2 b) / 2) pt.1 /\
  truncates ((by1 b + by2 b) / 2) pt.2 /\
  (forall L,
     LaneCounter.assign_lane self b = Some L <->
     exists pre poly post,
       LaneCounter.lanes self = pre ++ (L, poly) :: post /\
       contains poly pt /\
       Forall (fun it => ~ contains it.2 pt) pre) /\
  (LaneCounter.assign_lane self b = None <->
     Forall (fun it => ~ contains it.2 pt) (LaneCounter.lanes self)) /\
  (forall pre L poly post,
     LaneCounter.lanes self = pre ++ (L, poly) :: post ->
     pointPolygonTest poly pt = 0 ->
     Forall (fun it => ~ contains it.2 pt) pre ->
     LaneCounter.assign_lane self b = Some L) /\
  (forall L,
     StronglySorted Z.lt (LaneCounter.lanes self).*1 ->
     LaneCounter.assign_lane self b = Some L ->
     forall M poly,
       (M, poly) ∈ LaneCounter.lanes self -> contains poly pt -> L <= M).
Proof.
  intros pt. split; [apply int_truncates|]. split; [apply int_truncates|].
  split; [intros L; apply first_lane_some|].
  split; [apply first_lane_none|]. split.
  - intros pre L poly post Hl Hz Hpre. apply first_lane_some.
    exists pre, poly, post. split; [done|]. split; [|done].
    unfold contains. fold pt. lia.
  - intros L Hs HL. by apply first_lane_least.
Qed.

Lemma assign_lane_first_match_witness :
  LaneCounter.assign_lane (H := Convex.cv2)
    (LaneCounter.__init__ Sample.lanes3) Sample.on_edge = Some 1 /\
  (forall M poly,
     (M, poly) ∈ Sample.lanes3 ->
     contains (H := Convex.cv2) poly (250, 400) -> 1 <= M).
Proof.
  pose proof (assign_lane_first_match (H := Convex.cv2)
                (LaneCounter.__init__ Sample.lanes3) Sample.on_edge)
    as (_ & _ & _ & _ & Hedge & Hleast).
  assert (LaneCounter.assign_lane (H := Convex.cv2)
            (LaneCounter.__init__ Sample.lanes3) Sample.on_edge = Some 1) as H1.
  { eapply (Hedge []); [reflexivity | reflexivity | constructor]. }
  split; [exact H1|].
  apply (Hleast 1); [|exact H1].
  simpl. repeat constructor; lia.
Defined.

(** C10. Whatever calls have been made, [assign_lane] answers [None] or a
    configured lane identifier, [update_counts] returns without a missing
    key, and the keys of the counts it returns (and of the counted sets) are
    exactly the configured lane identifiers. *)
Theorem lane_keys_closed `{Cv2} (lanes0 : list (Z * polygon))
    (calls : list (list tracked_object)) :
  exists self,
    LaneCounter.update_all (LaneCounter.__init__ lanes0) calls = Ok self /\
    (forall b L, LaneCounter.assign_lane self b = Some L -> L ∈ lanes0.*1) /\
    dom (LaneCounter.counts self) = list_to_set lanes0.*1 /\
    dom (LaneCounter.tracked_ids self) = list_to_set lanes0.*1 /\
    (forall objs, exists self',
        LaneCounter.update_counts self objs = Ok (self', LaneCounter.counts self') /\
        dom (LaneCounter.counts self') = list_to_set lanes0.*1).
Proof.
  destruct (update_all_ok _ calls (init_ok lanes0)) as (self & Hrun & _ & Hok).
  destruct (reached_ok _ _ _ Hrun) as [_ Hl].
  pose proof (Ledger.ok_counts_dom _ Hok) as Hdc.
  pose proof (Ledger.ok_ids_dom _ Hok) as Hdi.
  unfold Ledger.lane_ids in Hdc, Hdi. rewrite Hl in Hdc, Hdi.
  exists self. split; [done|]. split.
  { intros b L HL. apply assign_lane_configured in HL.
    unfold Ledger.lane_ids in HL. by rewrite Hl in HL. }
  split; [done|]. split; [done|].
  intros objs.
  destruct (update_counts_ok self objs Hok) as (self' & Hrun' & Hsteps & Hok').
  exists self'. split; [done|].
  rewrite (Ledger.ok_counts_dom _ Hok'). unfold Ledger.lane_ids.
  by rewrite (steps_lanes _ _ _ Hok Hsteps), Hl.
Qed.

(** C4. At construction and after any number of [update_counts] calls,
    every configured lane has a counted set and a count, the count is the
    size of the set, and a further call never makes any count smaller. *)
Theorem count_is_set_size `{Cv2} (lanes0 : list (Z * polygon))
    (calls : list (list tracked_object)) :
  exists self,
    LaneCounter.update_all (LaneCounter.__init__ lanes0) calls = Ok self /\
    (forall L, L ∈ lanes0.*1 ->
       exists ids,
         LaneCounter.tracked_ids self !! L = Some ids /\
         LaneCounter.counts self !! L = Some (Z.of_nat (size ids))) /\
    (forall objs, exists self',
        LaneCounter.update_counts self objs = Ok (self', LaneCounter.counts self') /\
        forall L c,
          LaneCounter.counts self !! L = Some c ->
          exists c', LaneCounter.counts self' !! L = Some c' /\ c <= c').
Proof.
  destruct (update_all_ok _ calls (init_ok lanes0)) as (self & Hrun & _ & Hok).
  destruct (reached_ok _ _ _ Hrun) as [_ Hl].
  exists self. split; [done|]. split.
  - intros L HL. apply configured_lookup; [done|].
    unfold Ledger.lane_ids. by rewrite Hl.
  - intros objs.
    destruct (update_counts_ok self objs Hok) as (self' & Hrun' & Hsteps & _).
    exists self'. split; [done|]. intros L c.
    by apply (steps_count_mono self objs).
Qed.

(** C3. Once [T] is in the counted set of lane [L]: a call that attributes
    [T] to [L] again changes nothing; more generally a call in which every
    object resolving to [L] is already counted there leaves the set and the
    count of [L] as they were; and over a whole run no (lane, track) pair is
    counted twice, the count of a lane being the number of pairs counted
    for it. *)
Theorem attribution_idempotent `{Cv2} (lanes0 : list (Z * polygon))
    (calls : list (list tracked_object)) (self : LaneCounter.t) (L T : Z) :
  LaneCounter.update_all (LaneCounter.__init__ lanes0) calls = Ok self ->
  Ledger.counted self L T ->
  (forall obj,
     track_id obj = T -> LaneCounter.assign_lane self (bbox obj) = Some L ->
     LaneCounter.update_counts self [obj] = Ok (self, LaneCounter.counts self)) /\
  (forall objs,
     (forall obj, obj ∈ objs ->
        LaneCounter.assign_lane self (bbox obj) = Some L ->
        Ledger.counted self L (track_id obj)) ->
     exists self',
       LaneCounter.update_counts self objs = Ok (self', LaneCounter.counts self') /\
       LaneCounter.tracked_ids self' !! L = LaneCounter.tracked_ids self !! L /\
       LaneCounter.counts self' !! L = LaneCounter.counts self !! L) /\
  (let log := LaneCounter.counted_log (LaneCounter.__init__ lanes0) (concat calls) in
   NoDup log /\
   LaneCounter.counts self !! L =
     Some (Z.of_nat (length (filter (fun e => e.1 = L) log)))).
Proof.
  intros Hrun HT. destruct (reached_ok _ _ _ Hrun) as [Hok Hl].
  split; [|split].
  - intros obj <- HL. unfold LaneCounter.update_counts. simpl.
    unfold LaneCounter.count_object. rewrite HL.
    destruct HT as (ids & -> & Hin). by rewrite decide_True by done.
  - intros objs Hseen.
    destruct (update_counts_ok self objs Hok) as (self' & Hrun' & Hsteps & _).
    exists self'. split; [done|]. by eapply steps_lane_unchanged.
  - intros log. split; [apply counted_log_fresh, init_ok|].
    rewrite update_all_count_objects in Hrun by apply init_ok.
    assert (L ∈ lanes0.*1) as HL.
    { destruct HT as (ids & Hids & _).
      assert (L ∈ dom (LaneCounter.tracked_ids self)) as Hd by (apply elem_of_dom; eauto).
      rewrite (Ledger.ok_ids_dom _ Hok) in Hd. unfold Ledger.lane_ids in Hd.
      rewrite Hl in Hd. by apply elem_of_list_to_set in Hd. }
    rewrite (counted_log_counts _ _ _ L 0 (init_ok lanes0) Hrun); [done|].
    simpl. rewrite lookup_const_map. by rewrite decide_True.
Qed.

Lemma attribution_idempotent_witness :
  exists self,
    LaneCounter.update_all (H := Convex.cv2)
      (LaneCounter.__init__ Sample.lanes3) [[Sample.car_in_lane1]] = Ok self /\
    LaneCounter.update_counts (H := Convex.cv2) self [Sample.car_in_lane1] =
      Ok (self, LaneCounter.counts self) /\
    LaneCounter.counts self !! 1 = Some 1.
Proof.
  eexists. split; [reflexivity|].
  pose proof (attribution_idempotent (H := Convex.cv2) Sample.lanes3
                [[Sample.car_in_lane1]] _ 1 1 eq_refl) as Hthm.
  destruct Hthm as (Hsame & _ & _ & Hcount).
  - exists {[1]}. split; [reflexivity | by apply elem_of_singleton].
  - split; [by apply Hsame | exact Hcount].
Defined.

(** C1 as stated fails: track 1 is counted in lane 1 and, after its box has
    moved into the polygon of lane 2, in lane 2 as well. *)
Lemma first_attribution_not_kept :
  exists self,
    LaneCounter.update_all (H := Convex.cv2)
      (LaneCounter.__init__ Sample.lanes3)
      [[Sample.car_in_lane1]; [Sample.car_in_lane2]] = Ok self /\
    Ledger.counted self 1 1 /\ Ledger.counted self 2 1 /\
    ~ Ledger.first_attribution_wins self.
Proof.
  eexists. split; [reflexivity|].
  assert (forall L, L = 1 \/ L = 2 ->
            Ledger.counted
              {| LaneCounter.lanes := Sample.lanes3;
                 LaneCounter.counts :=
                   <[2 := 1]> (<[1 := 1]> (LaneCounter.counts (LaneCounter.__init__ Sample.lanes3)));
                 LaneCounter.tracked_ids :=
                   <[2 := {[1]} ∪ ∅]> (<[1 := {[1]} ∪ ∅]>
                      (LaneCounter.tracked_ids (LaneCounter.__init__ Sample.lanes3))) |} L 1) as Hc.
  { intros L [-> | ->]; exists ({[1]} ∪ ∅); (split; [reflexivity | set_solver]). }
  split; [apply (Hc 1); by left|]. split; [apply (Hc 2); by right|].
  intros Hwins. apply (Hwins 1 2 1); [lia | apply (Hc 1); by left | apply (Hc 2); by right].
Qed.

(** One run of the loop body changes the counted sets by the pair of the
    object's lane and identifier, and by nothing when it has no lane. *)
Lemma step_case_change `{Cv2} self obj self' :
  step_case self obj self' ->
  forall L T,
    Ledger.counted self' L T <->
    Ledger.counted self L T \/
    (LaneCounter.assign_lane self (bbox obj) = Some L /\ T = track_id obj).
Proof.
  intros Hstep L T.
  destruct (LaneCounter.assign_lane self (bbox obj)) as [M|] eqn:HM.
  - rewrite (step_case_counted _ _ _ M Hstep HM L T).
    split; (intros [?|[? ?]]; [by left | right; split; congruence]).
  - rewrite (step_case_outside _ _ _ Hstep HM).
    split; [by left | by intros [?|[? ?]]].
Qed.

(** A whole call changes the counted sets by the pairs of its objects
    that have a lane. *)
Lemma steps_change `{Cv2} self objs self' :
  steps self objs self' ->
  forall L T,
    Ledger.counted self' L T <->
    Ledger.counted self L T \/
    exists obj, obj ∈ objs /\
      LaneCounter.assign_lane self (bbox obj) = Some L /\ track_id obj = T.
Proof.
  induction 1 as [self|self obj self1 rest self2 Hstep _ IH]; intros L T.
  - split; [by left|]. intros [?|(obj & Hin & _)]; [done|].
    by apply elem_of_nil in Hin.
  - rewrite IH, (step_case_change _ _ _ Hstep L T).
    pose proof (step_case_lanes _ _ _ Hstep) as Hl.
    split.
    + intros [[?|[HL ->]]|(o & Hin & HL & <-)]; [by left | |].
      * right. exists obj. split; [by left | done].
      * right. exists o. split; [by right|].
        by rewrite <- (assign_lane_lanes self self1 _ Hl).
    + intros [?|(o & Hin & HL & <-)]; [by left; left|].
      apply elem_of_cons in Hin as [->|Hin]; [left; right; done|].
      right. exists o. split; [done|].
      by rewrite (assign_lane_lanes self self1 _ Hl).
Qed.

(** C1, amended. In every state reached from the constructor: a track
    identifier that is in the counted set of a lane stays there for the
    rest of the run; the loop body of [update_counts] on an object puts the
    object's identifier into the counted set of the lane its centroid
    resolves to, whether or not another lane has counted it, and changes
    nothing else, nothing at all when the centroid resolves to no lane; so
    a whole call adds exactly the pairs (lane, identifier) of its objects
    that have a lane. *)
Theorem counted_is_kept `{Cv2} (lanes0 : list (Z * polygon))
    (calls : list (list tracked_object)) (self : LaneCounter.t) :
  LaneCounter.update_all (LaneCounter.__init__ lanes0) calls = Ok self ->
  (forall more, exists self',
      LaneCounter.update_all self more = Ok self' /\
      forall L T, Ledger.counted self L T -> Ledger.counted self' L T) /\
  (forall obj, exists self',
      LaneCounter.count_object self obj = Ok self' /\
      forall L T,
        Ledger.counted self' L T <->
        Ledger.counted self L T \/
        (LaneCounter.assign_lane self (bbox obj) = Some L /\ T = track_id obj)) /\
  (forall objs, exists self',
      LaneCounter.update_counts self objs = Ok (self', LaneCounter.counts self') /\
      forall L T,
        Ledger.counted self' L T <->
        Ledger.counted self L T \/
        exists obj, obj ∈ objs /\
          LaneCounter.assign_lane self (bbox obj) = Some L /\ track_id obj = T).
Proof.
  intros Hrun. destruct (reached_ok _ _ _ Hrun) as [Hok _]. split; [|split].
  - intros more.
    destruct (update_all_ok self more Hok) as (self' & Hrun' & Hsteps & _).
    exists self'. split; [done|]. intros L T. by apply (steps_mono _ _ _ _ _ Hsteps).
  - intros obj.
    destruct (count_object_step self obj Hok) as (self' & Hrun' & Hstep).
    exists self'. split; [done|]. by apply step_case_change.
  - intros objs.
    destruct (update_counts_ok self objs Hok) as (self' & Hrun' & Hsteps & _).
    exists self'. split; [done|]. by apply steps_change.
Qed.

Lemma counted_is_kept_witness :
  exists self self',
    LaneCounter.update_all (H := Convex.cv2)
      (LaneCounter.__init__ Sample.lanes3) [[Sample.car_in_lane1]] = Ok self /\
    LaneCounter.update_all (H := Convex.cv2) self [[Sample.car_in_lane2]] = Ok self' /\
    Ledger.counted self 1 1 /\ Ledger.counted self' 1 1.
Proof.
  eexists.
  pose proof (counted_is_kept (H := Convex.cv2) Sample.lanes3
                [[Sample.car_in_lane1]] _ eq_refl) as Hthm.
  destruct Hthm as [Hkeep _].
  destruct (Hkeep [[Sample.car_in_lane2]]) as (self' & Hrun & Hc).
  assert (Ledger.counted
            {| LaneCounter.lanes := Sample.lanes3;
               LaneCounter.counts :=
                 <[1 := Z.of_nat (size (∅ : gset Z)) + 1]>
                   (LaneCounter.counts (LaneCounter.__init__ Sample.lanes3));
               LaneCounter.tracked_ids :=
                 <[1 := {[1]} ∪ ∅]>
                   (LaneCounter.tracked_ids (LaneCounter.__init__ Sample.lanes3)) |}
            1 1) as H1.
  { exists ({[1]} ∪ ∅). split; [reflexivity | set_solver]. }
  exists self'. split; [reflexivity|]. split; [exact Hrun|].
  split; [exact H1 | exact (Hc 1 1 H1)].
Defined.

(** ** Frame labels *)

Lemma label_of_null_confidence (obj : tracked_object) :
  confidence obj = Null \/ confidence obj = Missing ->
  VideoProcessor.label obj =
    "ID " +:+ pretty (track_id obj) +:+ " "
      +:+ VideoProcessor.fstr (VideoProcessor.get (class_name obj) (Some "vehicle"))
      +:+ " 0.00".
Proof. unfold VideoProcessor.label. by intros [-> | ->]. Qed.

Lemma label_of_missing_class (obj : tracked_object) :
  class_name obj = Missing ->
  VideoProcessor.fstr (VideoProcessor.get (class_name obj) (Some "vehicle")) = "vehicle".
Proof. by intros ->. Qed.

(** Rounding moves a number by at most one half. *)
Lemma round_half_even_near (q : Q) :
  (Qabs (q - inject_Z (VideoProcessor.round_half_even q)) <= 1 # 2)%Q.
Proof.
  unfold VideoProcessor.round_half_even.
  pose proof (Qfloor_le q) as Hlo. pose proof (Qlt_floor q) as Hhi.
  rewrite inject_Z_plus in Hhi. change (inject_Z 1) with 1%Q in Hhi.
  destruct (Qcompare_spec (q - inject_Z (Qfloor q)) (1 # 2)) as [He|Hl|Hg].
  - destruct (Z.even (Qfloor q)); [|rewrite inject_Z_plus; change (inject_Z 1) with 1%Q];
      apply Qabs_Qle_condition; lra.
  - apply Qabs_Qle_condition; lra.
  - rewrite inject_Z_plus; change (inject_Z 1) with 1%Q. apply Qabs_Qle_condition; lra.
Qed.

Lemma append_cancel_l (s a b : string) : s +:+ a = s +:+ b -> a = b.
Proof.
  induction s as [|c s IH]; simpl; [done|]. intros [= H]. by apply IH.
Qed.

(** C9. For a track that no detection matched, which [Tracker.update]
    hands over with confidence and class present and null, the label shows
    the confidence 0.00 but the text None for the class, not the
    placeholder: the default of [obj.get("class_name", "vehicle")] applies
    to an absent key only. *)
Theorem label_of_unmatched_track (t : track) :
  VideoProcessor.label (Tracker.make_tracked t None) =
    "ID " +:+ pretty (Py.int (trk_id t)) +:+ " None 0.00" /\
  VideoProcessor.label (Tracker.make_tracked t None) <>
    "ID " +:+ pretty (Py.int (trk_id t)) +:+ " vehicle 0.00".
Proof.
  split; [reflexivity|].
  change (VideoProcessor.label (Tracker.make_tracked t None))
    with ("ID " +:+ pretty (Py.int (trk_id t)) +:+ " None 0.00").
  intros Heq.
  apply (append_cancel_l "ID ") in Heq.
  apply (append_cancel_l (pretty (Py.int (trk_id t)))) in Heq.
  discriminate Heq.
Qed.

Example label_unmatched_7 :
  VideoProcessor.label
    {| track_id := 7; bbox := Box 1 1 11 11;
       confidence := Null; class_id := Null; class_name := Null |} =
  "ID 7 None 0.00".
Proof. reflexivity. Qed.

(** ** The streaming run: what a run appends to the trace *)

Section Emits.
Context `{Cv2}.
Import VideoProcessor.

Lemma emits_ret {A} P (a : A) : emits P (ret a).
Proof. intros s. exists []. by rewrite app_nil_r. Qed.

Lemma emits_stop {A} P : emits P (@stop A).
Proof. intros s. exists []. by rewrite app_nil_r. Qed.

Lemma emits_lift {A} P (r : result A) : emits P (lift r).
Proof. intros s. exists []. destruct r; by rewrite app_nil_r. Qed.

Lemma emits_emit P evs : Forall P evs -> emits P (emit evs).
Proof. intros HP s. by exists evs. Qed.

Lemma emits_next_frame P : emits P next_frame.
Proof. intros s. exists []. by rewrite app_nil_r. Qed.

Lemma emits_get_counter P : emits P get_counter.
Proof. intros s. exists []. by rewrite app_nil_r. Qed.

Lemma emits_set_counter P c : emits P (set_counter c).
Proof. intros s. exists []. by rewrite app_nil_r. Qed.

Lemma emits_bind {A B} P (m : M A) (k : A -> M B) :
  emits P m -> (forall a, emits P (k a)) -> emits P (bind m k).
Proof.
  intros Hm Hk s. unfold bind. destruct (Hm s) as (evs & Htr & HP).
  destruct (m s) as [s1 [a| |e]]; simpl in *.
  - destruct (Hk a s1) as (evs' & Htr' & HP').
    exists (evs ++ evs'). rewrite Htr', Htr, app_assoc.
    split; [done | by apply Forall_app].
  - by exists evs.
  - by exists evs.
Qed.

Lemma emits_at_stage P fi st : emits P (at_stage fi st).
Proof.
  unfold at_stage. destruct (fault fi) as [[st' e]|]; [|apply emits_ret].
  destruct (decide (st = st')); [apply emits_lift | apply emits_ret].
Qed.

Lemma emits_process_frame P fi objs : emits P (process_frame fi objs).
Proof.
  unfold process_frame.
  repeat (first [ apply emits_at_stage | apply emits_get_counter
                | apply emits_set_counter | apply emits_lift | apply emits_ret
                | apply emits_bind; [|intros ?] ]).
Qed.

Lemma emits_log_objects w fi idx ts k objs :
  emits body_event (log_objects w fi idx ts k objs).
Proof.
  revert k. induction objs as [|obj rest IH]; intros k; simpl.
  - apply emits_ret.
  - apply emits_bind; [apply emits_get_counter|]. intros c.
    destruct (LaneCounter.assign_lane c (bbox obj)); [|apply IH].
    apply emits_bind; [apply emits_at_stage|]. intros _.
    apply emits_bind; [apply emits_emit; by repeat constructor|]. intros _.
    apply IH.
Qed.

Lemma emits_frame_body self w fi : emits body_event (frame_body self w fi).
Proof.
  unfold frame_body.
  apply emits_bind; [apply emits_next_frame|]. intros idx.
  apply emits_bind; [apply emits_lift|]. intros ts.
  apply emits_bind; [apply emits_at_stage|]. intros _.
  apply emits_bind; [apply emits_at_stage|]. intros _.
  apply emits_bind; [apply emits_lift|]. intros objs.
  apply emits_bind; [apply emits_process_frame|]. intros ann.
  apply emits_bind; [apply emits_at_stage|]. intros _.
  apply emits_bind; [apply emits_emit; by repeat constructor|]. intros _.
  apply emits_bind.
  { destruct (show_preview self); [|apply emits_ret].
    apply emits_bind; [apply emits_at_stage|]. intros _.
    apply emits_bind; [apply emits_emit; by repeat constructor|]. intros _.
    destruct (key_q fi); [apply emits_stop | apply emits_ret]. }
  intros _.
  apply emits_bind; [apply emits_log_objects|]. intros _.
  apply emits_bind; [apply emits_at_stage|]. intros _.
  apply emits_emit. by repeat constructor.
Qed.

Lemma loop_trace self w frames s :
  exists evs,
    trace (loop self w frames s).1 = trace s ++ evs /\ Forall body_event evs.
Proof.
  revert s. induction frames as [|fi rest IH]; intros s; simpl.
  - exists []. by rewrite app_nil_r.
  - destruct (emits_frame_body self w fi s) as (evs & Htr & HP).
    destruct (frame_body self w fi s) as [s1 [[]| |e]]; simpl in *.
    + destruct (IH s1) as (evs' & Htr' & HP').
      exists (evs ++ evs'). rewrite Htr', Htr, app_assoc.
      split; [done | by apply Forall_app].
    + by exists evs.
    + by exists evs.
Qed.

Lemma run_trace self w frames s :
  exists evs,
    Forall body_event evs /\
    trace (run self w frames s).1 =
      trace s ++ [Acquire ProgressBar] ++ evs ++ teardown /\
    (run self w frames s).2 =
      run_result
        (loop self w frames
           {| frame_idx := 0; lane_counter := lane_counter s;
              trace := trace s ++ [Acquire ProgressBar] |}).2.
Proof.
  unfold run.
  set (s0 := {| frame_idx := 0; lane_counter := lane_counter s;
                trace := trace s ++ [Acquire ProgressBar] |}).
  destruct (loop_trace self w frames s0) as (evs & Htr & HP).
  exists evs. split; [done|].
  destruct (loop self w frames s0) as [s' [| |[]]]; simpl in *;
    rewrite Htr, <- !app_assoc; done.
Qed.

End Emits.

(** ** Release of resources *)

Lemma releases_app r tr1 tr2 :
  releases r (tr1 ++ tr2) = (releases r tr1 + releases r tr2)%nat.
Proof.
  induction tr1 as [|e tr1 IH]; [done|]. destruct e; simpl; rewrite ?IH; lia.
Qed.

Lemma acquires_app r tr1 tr2 :
  acquires r (tr1 ++ tr2) = (acquires r tr1 + acquires r tr2)%nat.
Proof.
  induction tr1 as [|e tr1 IH]; [done|]. destruct e; simpl; rewrite ?IH; lia.
Qed.

Lemma body_events_hold_nothing r evs :
  Forall body_event evs -> releases r evs = 0%nat /\ acquires r evs = 0%nat.
Proof.
  induction 1 as [|e evs He _ [IH1 IH2]]; [done|]. by destruct e.
Qed.

Section Pipeline.
Context `{Cv2}.

(** The trace of the pipeline of [main]: the resources are taken, the loop
    runs, [finally] gives back the resources of [run], and the CSV file is
    closed when [run] returns, not when it raises. *)
Lemma pipeline_trace lanes0 preview v :
  exists evs,
    Forall body_event evs /\
    (Main.pipeline lanes0 preview v).1 =
      Utils.__init__ ++ VideoProcessor.__init__ ++ [Acquire ProgressBar]
        ++ evs ++ VideoProcessor.teardown
        ++ match run_result (pipeline_exit lanes0 preview v) with
           | Ok _ => Utils.close
           | Raise _ => []
           end /\
    (forall e, (Main.pipeline lanes0 preview v).2 = Raise e <->
               run_result (pipeline_exit lanes0 preview v) = Raise e).
Proof.
  unfold Main.pipeline.
  set (self := {| VideoProcessor.fps := Main.fps v;
                  VideoProcessor.total_frames := Main.total_frames v;
                  VideoProcessor.show_preview := preview |}).
  set (s0 := {| VideoProcessor.frame_idx := 0;
                VideoProcessor.lane_counter := LaneCounter.__init__ lanes0;
                VideoProcessor.trace := Utils.__init__ ++ VideoProcessor.__init__ |}).
  destruct (run_trace self Utils.log (Main.frames v) s0) as (evs & HP & Htr & Hres).
  assert ((VideoProcessor.loop self Utils.log (Main.frames v)
             {| VideoProcessor.frame_idx := 0;
                VideoProcessor.lane_counter := VideoProcessor.lane_counter s0;
                VideoProcessor.trace :=
                  VideoProcessor.trace s0 ++ [Acquire ProgressBar] |}).2
          = pipeline_exit lanes0 preview v) as Hex by reflexivity.
  rewrite Hex in Hres. clear Hex.
  exists evs. split; [done|].
  destruct (VideoProcessor.run self Utils.log (Main.frames v) s0) as [s' [[]|e]];
    simpl in Htr, Hres; rewrite <- Hres; simpl; rewrite Htr.
  - split; [simpl; by rewrite <- app_assoc|]. intros e. split; intros ?; discriminate.
  - split; [reflexivity|]. intros e'. split; intros ?; by simplify_eq.
Qed.

(** The capture, the writer and the progress bar are taken once and given
    back once on every exit path; the CSV file is taken once and closed
    once when [run] returns (end of stream, quit, interruption), and is not
    closed when an exception leaves [run]. *)
Lemma pipeline_releases lanes0 preview v :
  let tr := (Main.pipeline lanes0 preview v).1 in
  (forall r, acquires r tr = if decide (r = PreviewWindows) then 0%nat else 1%nat) /\
  (forall r, r <> CsvFile -> releases r tr = 1%nat) /\
  releases CsvFile tr =
    match run_result (pipeline_exit lanes0 preview v) with
    | Ok _ => 1%nat
    | Raise _ => 0%nat
    end.
Proof.
  intros tr. subst tr.
  destruct (pipeline_trace lanes0 preview v) as (evs & HP & -> & _).
  split; [|split].
  - intros r. rewrite !acquires_app.
    destruct (body_events_hold_nothing r evs HP) as [_ ->].
    destruct (run_result _); destruct r; reflexivity.
  - intros r Hr. rewrite !releases_app.
    destruct (body_events_hold_nothing r evs HP) as [-> _].
    destruct (run_result _); destruct r; done.
  - rewrite !releases_app.
    destruct (body_events_hold_nothing CsvFile evs HP) as [-> _].
    destruct (run_result _); reflexivity.
Qed.

End Pipeline.

(** C2. When an exception other than KeyboardInterrupt leaves the loop
    body, the [finally] block of [run] gives back the capture, the writer
    and the progress bar once each, the exception leaves [run] and [main],
    and the CSV file, opened once, is never closed. *)
Theorem csv_left_open_on_exception `{Cv2} (lanes0 : list (Z * polygon))
    (preview : bool) (v : Main.video) (e : exn) :
  pipeline_exit lanes0 preview v = VideoProcessor.Raised e ->
  e <> KeyboardInterrupt ->
  (Main.pipeline lanes0 preview v).2 = Raise e /\
  acquires CsvFile (Main.pipeline lanes0 preview v).1 = 1%nat /\
  releases CsvFile (Main.pipeline lanes0 preview v).1 = 0%nat /\
  releases InputStream (Main.pipeline lanes0 preview v).1 = 1%nat /\
  releases OutputWriter (Main.pipeline lanes0 preview v).1 = 1%nat /\
  releases ProgressBar (Main.pipeline lanes0 preview v).1 = 1%nat.
Proof.
  intros Hex He.
  assert (run_result (pipeline_exit lanes0 preview v) = Raise e) as Hres.
  { rewrite Hex. by destruct e. }
  destruct (pipeline_trace lanes0 preview v) as (_ & _ & _ & Hraise).
  destruct (pipeline_releases lanes0 preview v) as (Hacq & Hrel & Hcsv).
  split; [by apply Hraise|].
  split; [by rewrite Hacq|].
  split; [by rewrite Hcsv, Hres|].
  repeat split; by apply Hrel.
Qed.

Lemma csv_left_open_on_exception_witness :
  (Main.pipeline (H := Convex.cv2) Sample.lanes3 true
     (Sample.video [Sample.frame_detector_fails])).2 = Raise RuntimeError /\
  acquires CsvFile
    (Main.pipeline (H := Convex.cv2) Sample.lanes3 true
       (Sample.video [Sample.frame_detector_fails])).1 = 1%nat /\
  releases CsvFile
    (Main.pipeline (H := Convex.cv2) Sample.lanes3 true
       (Sample.video [Sample.frame_detector_fails])).1 = 0%nat /\
  releases InputStream
    (Main.pipeline (H := Convex.cv2) Sample.lanes3 true
       (Sample.video [Sample.frame_detector_fails])).1 = 1%nat /\
  releases OutputWriter
    (Main.pipeline (H := Convex.cv2) Sample.lanes3 true
       (Sample.video [Sample.frame_detector_fails])).1 = 1%nat /\
  releases ProgressBar
    (Main.pipeline (H := Convex.cv2) Sample.lanes3 true
       (Sample.video [Sample.frame_detector_fails])).1 = 1%nat.
Proof.
  apply (csv_left_open_on_exception (H := Convex.cv2) Sample.lanes3 true
           (Sample.video [Sample.frame_detector_fails]) RuntimeError).
  - reflexivity.
  - discriminate.
Defined.

(** The run of [main] itself on that video. *)
Example main_leaves_csv_open :
  let out := Main.main (H := Convex.cv2) (Sample.video [Sample.frame_detector_fails]) in
  out.2 = Raise RuntimeError /\
  acquires CsvFile out.1 = 1%nat /\ releases CsvFile out.1 = 0%nat /\
  releases InputStream out.1 = 1%nat /\
  releases OutputWriter out.1 = 1%nat /\
  releases ProgressBar out.1 = 1%nat.
Proof. vm_compute. repeat split. Qed.

(** On the other three exit paths the CSV file is closed once. *)
Example csv_closed_on_normal_exits :
  releases CsvFile
    (Main.main (H := Convex.cv2) (Sample.video [Sample.frame_car])).1 = 1%nat /\
  releases CsvFile
    (Main.main (H := Convex.cv2) (Sample.video [Sample.frame_quit])).1 = 1%nat /\
  releases CsvFile
    (Main.main (H := Convex.cv2) (Sample.video [Sample.frame_interrupted])).1 = 1%nat.
Proof. vm_compute. repeat split. Qed.

(** ** The CSV log *)

Lemma csv_rows_app tr1 tr2 : csv_rows (tr1 ++ tr2) = csv_rows tr1 ++ csv_rows tr2.
Proof.
  induction tr1 as [|e tr1 IH]; [done|]. destruct e; simpl; by rewrite ?IH.
Qed.

Lemma csv_rows_rows rows : csv_rows (CsvRow <$> rows) = rows.
Proof. induction rows as [|r rows IH]; [done|]. csimpl. by rewrite IH. Qed.

Lemma written_frames_app tr1 tr2 :
  written_frames (tr1 ++ tr2) = written_frames tr1 ++ written_frames tr2.
Proof.
  induction tr1 as [|e tr1 IH]; [done|]. destruct e; simpl; by rewrite ?IH.
Qed.

Lemma written_frames_rows rows : written_frames (CsvRow <$> rows) = [].
Proof. induction rows as [|r rows IH]; [done|]. done. Qed.

Lemma timedelta_under_a_day (n : Z) :
  0 <= n < 86400 ->
  Utils.timedelta_str n =
    pretty (n / 3600) +:+ ":" +:+ Utils.two_digits (n / 60 mod 60)
      +:+ ":" +:+ Utils.two_digits (n mod 60).
Proof.
  intros Hn. unfold Utils.timedelta_str.
  rewrite (Z.div_small n 86400), (Z.mod_small n 86400) by lia. reflexivity.
Qed.

Section Log.
Context `{Cv2}.
Import VideoProcessor.

Lemma count_objects_lanes self objs self' :
  LaneCounter.count_objects self objs = Ok self' ->
  LaneCounter.lanes self' = LaneCounter.lanes self.
Proof.
  revert self. induction objs as [|obj rest IH]; intros self; simpl.
  - by intros [= ->].
  - destruct (LaneCounter.count_object self obj) as [s1|] eqn:E; [|done]. simpl.
    intros Hrest. rewrite (IH _ Hrest). clear -E.
    unfold LaneCounter.count_object in E.
    repeat (case_match; simplify_eq/=); done.
Qed.

Lemma bind_next {A B} (m : M A) (k : A -> M B) s s' b :
  bind m k s = (s', Next b) ->
  exists a s1, m s = (s1, Next a) /\ k a s1 = (s', Next b).
Proof.
  unfold bind. destruct (m s) as [s1 [a| |e]]; [|done..]. intros Hk. by exists a, s1.
Qed.

Lemma at_stage_next fi st s s' u : at_stage fi st s = (s', Next u) -> s' = s.
Proof.
  unfold at_stage. destruct (fault fi) as [[st' e]|]; [|by intros [= ->]].
  destruct (decide (st = st')); [done | by intros [= ->]].
Qed.

Lemma lift_next {A} (r : result A) s s' a :
  lift r s = (s', Next a) -> r = Ok a /\ s' = s.
Proof. destruct r; simpl; [by intros [= -> ->] | done]. Qed.

Lemma process_frame_next fi objs s s' ann :
  process_frame fi objs s = (s', Next ann) ->
  frame_idx s' = frame_idx s /\ trace s' = trace s /\
  LaneCounter.lanes (lane_counter s') = LaneCounter.lanes (lane_counter s).
Proof.
  unfold process_frame.
  intros ([] & s1 & ->%at_stage_next & Hk)%bind_next.
  apply bind_next in Hk as (c & s2 & [= <- <-] & Hk).
  apply bind_next in Hk as (r & s2 & [Hr ->]%lift_next & Hk).
  apply bind_next in Hk as ([] & s2 & [= <-] & Hk).
  apply bind_next in Hk as (ov & s2 & [_ ->]%lift_next & [= <- _]).
  simpl. repeat split. unfold LaneCounter.update_counts in Hr.
  destruct (LaneCounter.count_objects (lane_counter s) objs) as [c'|] eqn:E;
    simplify_eq/=. by eapply count_objects_lanes.
Qed.

Lemma record_of_log lanes idx fps obj :
  record_of lanes idx fps obj =
    (fun L => Utils.log (track_id obj) L idx (inject_Z idx / fps))
      <$> LaneCounter.first_lane lanes (LaneCounter.centroid (bbox obj)).
Proof. unfold record_of. by destruct (LaneCounter.first_lane _ _). Qed.

Lemma log_objects_next fi idx fps k objs s s' u :
  log_objects Utils.log fi idx (inject_Z idx / fps) k objs s = (s', Next u) ->
  frame_idx s' = frame_idx s /\ lane_counter s' = lane_counter s /\
  trace s' =
    trace s ++ (CsvRow <$> records_of (LaneCounter.lanes (lane_counter s)) idx fps objs).
Proof.
  revert k s. induction objs as [|obj rest IH]; intros k s; simpl.
  - intros [= <-]. by rewrite app_nil_r.
  - intros (c & s1 & [= <- <-] & Hk)%bind_next.
    unfold records_of. simpl. rewrite record_of_log.
    unfold LaneCounter.assign_lane in Hk.
    destruct (LaneCounter.first_lane _ _) as [L|]; simpl.
    + apply bind_next in Hk as ([] & s1 & ->%at_stage_next & Hk).
      apply bind_next in Hk as ([] & s1 & [= <-] & Hk).
      apply IH in Hk as (Hi & Hc & Htr). simpl in *.
      rewrite Hi, Hc, Htr, <- app_assoc. done.
    + by apply IH in Hk.
Qed.

(** A loop body that runs to its end has written one frame and exactly the
    records owed to that frame. *)
Lemma frame_body_next self fi s s' u :
  frame_body self Utils.log fi s = (s', Next u) ->
  exists objs ov,
    Tracker.update (detections fi) (tracks fi) = Ok objs /\
    frame_idx s' = frame_idx s + 1 /\
    LaneCounter.lanes (lane_counter s') = LaneCounter.lanes (lane_counter s) /\
    trace s' =
      trace s ++ [WriteFrame (frame_idx s + 1) ov]
        ++ (if show_preview self then [ImShow (frame_idx s + 1)] else [])
        ++ (CsvRow <$> records_of (LaneCounter.lanes (lane_counter s))
                         (frame_idx s + 1) (fps self) objs)
        ++ [Progress].
Proof.
  unfold frame_body.
  intros (idx & s1 & [= <- <-] & Hk)%bind_next.
  apply bind_next in Hk as (ts & s1 & [Hts ->]%lift_next & Hk).
  apply bind_next in Hk as ([] & s1 & ->%at_stage_next & Hk).
  apply bind_next in Hk as ([] & s1 & ->%at_stage_next & Hk).
  apply bind_next in Hk as (objs & s1 & [Hobjs ->]%lift_next & Hk).
  apply bind_next in Hk as (ann & s1 & (Hi1 & Ht1 & Hl1)%process_frame_next & Hk).
  apply bind_next in Hk as ([] & s2 & ->%at_stage_next & Hk).
  apply bind_next in Hk as ([] & s2 & [= <-] & Hk).
  apply bind_next in Hk as ([] & s2 & Hprev & Hk).
  apply bind_next in Hk as ([] & s3 & Hlog & Hk).
  apply bind_next in Hk as ([] & s4 & ->%at_stage_next & [= <-]).
  unfold Py.truediv in Hts. destruct (Qeq_bool (fps self) 0); [done|].
  injection Hts as <-.
  apply log_objects_next in Hlog as (Hi3 & Hc3 & Ht3).
  exists objs, ann.1. split; [done|]. simpl in *.
  assert (frame_idx s2 = frame_idx s + 1 /\
          lane_counter s2 = lane_counter s1 /\
          trace s2 = trace s1 ++ [WriteFrame (frame_idx s + 1) ann.1]
                       ++ (if show_preview self then [ImShow (frame_idx s + 1)] else []))
    as (Hi2 & Hc2 & Ht2).
  { destruct (show_preview self).
    - apply bind_next in Hprev as ([] & s5 & ->%at_stage_next & Hprev).
      apply bind_next in Hprev as ([] & s5 & [= <-] & Hprev).
      destruct (key_q fi); [done|]. injection Hprev as <-. simpl.
      by rewrite <- app_assoc.
    - injection Hprev as <-. by simpl. }
  rewrite Hi3, Hi2, Hc3, Hc2, Hl1. repeat split.
  rewrite Ht3, Ht2, Ht1, Hc2, Hl1, <- !app_assoc. done.
Qed.

Lemma loop_end_of_stream self frames s s' :
  loop self Utils.log frames s = (s', EndOfStream) ->
  exists objss,
    Forall2 (fun fi objs => Tracker.update (detections fi) (tracks fi) = Ok objs)
            frames objss /\
    csv_rows (trace s') =
      csv_rows (trace s)
        ++ records_from (LaneCounter.lanes (lane_counter s)) (frame_idx s + 1)
             (fps self) objss /\
    written_frames (trace s') =
      written_frames (trace s) ++ seqZ (frame_idx s + 1) (Z.of_nat (length frames)).
Proof.
  revert s. induction frames as [|fi rest IH]; intros s; simpl.
  - intros [= <-]. exists []. split; [constructor|]. by rewrite !app_nil_r.
  - destruct (frame_body self Utils.log fi s) as [s1 [u| |e]] eqn:E; [|done..].
    intros Hrest.
    apply frame_body_next in E as (objs & ov & Hobjs & Hi & Hl & Htr).
    apply IH in Hrest as (objss & Hall & Hrows & Hw).
    exists (objs :: objss). split; [by constructor|]. split.
    + rewrite Hrows, Htr, Hl, Hi. rewrite !csv_rows_app, csv_rows_rows.
      simpl. destruct (show_preview self); simpl; by rewrite app_nil_r, <- app_assoc.
    + rewrite Hw, Htr, Hi. rewrite !written_frames_app, written_frames_rows.
      rewrite (seqZ_cons (frame_idx s + 1) (Z.of_nat (S (length rest)))) by lia.
      replace (Z.pred (Z.of_nat (S (length rest)))) with (Z.of_nat (length rest)) by lia.
      replace (Z.succ (frame_idx s + 1)) with (frame_idx s + 1 + 1) by lia.
      destruct (show_preview self); simpl; by rewrite <- app_assoc.
Qed.

End Log.

(** ** Runs in which nothing goes wrong reach the end of the stream *)

Section Clean.
Context `{Cv2}.
Import VideoProcessor.

Lemma draw_lanes_ok (counts : gmap Z Z) (items : list (Z * polygon)) :
  Forall (fun it => it.2 <> [] /\ is_Some (counts !! it.1)) items ->
  exists ov, draw_lanes counts items = Ok ov.
Proof.
  induction 1 as [|[l p] rest [Hp [c Hc]] _ [ov IH]]; simpl in *.
  - by eexists.
  - destruct p as [|[x y] p]; [done|]. rewrite Hc, IH. by eexists.
Qed.

Lemma log_objects_clean w fi idx ts k objs s :
  fault fi = None ->
  exists s', log_objects w fi idx ts k objs s = (s', Next tt) /\
             lane_counter s' = lane_counter s.
Proof.
  intros Hf. revert k s. induction objs as [|obj rest IH]; intros k s; simpl.
  - by exists s.
  - unfold bind at 1. simpl.
    destruct (LaneCounter.assign_lane (lane_counter s) (bbox obj)); [|apply IH].
    unfold bind, at_stage, emit. rewrite Hf. simpl.
    edestruct IH as (s' & -> & Hc). by exists s'.
Qed.

Lemma bind_run {A B} (m : M A) (k : A -> M B) s s1 a :
  m s = (s1, Next a) -> bind m k s = k a s1.
Proof. unfold bind. by intros ->. Qed.

Lemma at_stage_clean fi st s : fault fi = None -> at_stage fi st s = (s, Next tt).
Proof. unfold at_stage. by intros ->. Qed.

Lemma process_frame_clean fi objs s :
  fault fi = None ->
  Ledger.ok (lane_counter s) ->
  Forall (fun it => it.2 <> []) (LaneCounter.lanes (lane_counter s)) ->
  exists s' ann,
    process_frame fi objs s = (s', Next ann) /\
    Ledger.ok (lane_counter s').
Proof.
  intros Hf Hok Hpoly.
  destruct (update_counts_ok (lane_counter s) objs Hok) as (c' & Hc' & Hsteps & Hok').
  pose proof (steps_lanes _ _ _ Hok Hsteps) as Hl.
  destruct (draw_lanes_ok (LaneCounter.counts c') (LaneCounter.lanes c')) as [ov Hov].
  { rewrite Hl. apply Forall_forall. intros [l p] Hin. split.
    - rewrite Forall_forall in Hpoly. by apply (Hpoly (l, p)).
    - apply elem_of_dom. rewrite (Ledger.ok_counts_dom _ Hok').
      unfold Ledger.lane_ids. rewrite Hl. apply elem_of_list_to_set.
      apply list_elem_of_fmap. by exists (l, p). }
  unfold process_frame.
  erewrite bind_run by by apply at_stage_clean.
  erewrite bind_run by reflexivity.
  erewrite bind_run by (unfold lift; rewrite Hc'; reflexivity).
  erewrite bind_run by reflexivity.
  erewrite bind_run by (unfold lift; simpl; rewrite Hov; reflexivity).
  eexists _, _. split; [reflexivity|]. done.
Qed.

Lemma frame_body_clean self w fi s :
  ~ (fps self == 0)%Q -> clean self fi ->
  Ledger.ok (lane_counter s) ->
  Forall (fun it => it.2 <> []) (LaneCounter.lanes (lane_counter s)) ->
  exists s',
    frame_body self w fi s = (s', Next tt) /\
    Ledger.ok (lane_counter s') /\
    LaneCounter.lanes (lane_counter s') = LaneCounter.lanes (lane_counter s).
Proof.
  intros Hfps [Hf Hq] Hok Hpoly.
  destruct (update_returns (detections fi) (tracks fi)) as (objs & Hobjs).
  assert (Qeq_bool (fps self) 0 = false) as E.
  { destruct (Qeq_bool (fps self) 0) eqn:E; [|done]. by apply Qeq_bool_iff in E. }
  pose (s1 := {| frame_idx := frame_idx s + 1; lane_counter := lane_counter s;
                 trace := trace s |}).
  destruct (process_frame_clean fi objs s1 Hf Hok Hpoly) as (s2 & ann & Hpf & Hok2).
  pose proof Hpf as (_ & _ & Hl2)%process_frame_next.
  unfold frame_body.
  erewrite bind_run by reflexivity.
  erewrite bind_run by (unfold lift, Py.truediv; rewrite E; reflexivity).
  erewrite bind_run by by apply at_stage_clean.
  erewrite bind_run by by apply at_stage_clean.
  erewrite bind_run by (unfold lift; rewrite Hobjs; reflexivity).
  erewrite bind_run by exact Hpf.
  erewrite bind_run by by apply at_stage_clean.
  erewrite bind_run by reflexivity.
  assert (exists s4,
            (if show_preview self
             then bind (at_stage fi AtPreview)
                    (fun _ => bind (emit [ImShow (frame_idx s + 1)])
                       (fun _ => if key_q fi then stop else ret tt))
             else ret tt)
              {| frame_idx := frame_idx s2; lane_counter := lane_counter s2;
                 trace := trace s2 ++ [WriteFrame (frame_idx s + 1) ann.1] |}
            = (s4, Next tt) /\ lane_counter s4 = lane_counter s2)
    as (s4 & Hprev & Hc4).
  { destruct (show_preview self).
    - erewrite bind_run by by apply at_stage_clean.
      erewrite bind_run by reflexivity.
      rewrite (Hq eq_refl). by eexists.
    - by eexists. }
  erewrite bind_run by exact Hprev.
  destruct (log_objects_clean w fi (frame_idx s + 1)
              (inject_Z (frame_idx s + 1) / fps self) 0%nat objs s4 Hf)
    as (s5 & Hlog & Hc5).
  erewrite bind_run by exact Hlog.
  erewrite bind_run by by apply at_stage_clean.
  eexists. split; [reflexivity|]. simpl. rewrite Hc5, Hc4. done.
Qed.

Lemma loop_clean self w frames s :
  ~ (fps self == 0)%Q -> Forall (clean self) frames ->
  Ledger.ok (lane_counter s) ->
  Forall (fun it => it.2 <> []) (LaneCounter.lanes (lane_counter s)) ->
  (loop self w frames s).2 = EndOfStream.
Proof.
  intros Hfps Hclean. revert s.
  induction Hclean as [|fi rest Hfi _ IH]; intros s Hok Hpoly; simpl; [done|].
  destruct (frame_body_clean self w fi s Hfps Hfi Hok Hpoly) as (s' & -> & Hok' & Hl).
  apply IH; [done|]. by rewrite Hl.
Qed.

End Clean.

Section LogRecords.
Context `{Cv2}.

Lemma pipeline_end_of_stream lanes0 preview v :
  pipeline_exit lanes0 preview v = VideoProcessor.EndOfStream ->
  exists objss,
    Forall2 (fun fi objs =>
               Tracker.update (VideoProcessor.detections fi)
                              (VideoProcessor.tracks fi) = Ok objs)
            (Main.frames v) objss /\
    csv_rows (Main.pipeline lanes0 preview v).1 =
      Utils.header :: records_from lanes0 1 (Main.fps v) objss /\
    written_frames (Main.pipeline lanes0 preview v).1 =
      seqZ 1 (Z.of_nat (length (Main.frames v))).
Proof.
  unfold pipeline_exit, Main.pipeline, VideoProcessor.run. simpl.
  set (self := {| VideoProcessor.fps := Main.fps v;
                  VideoProcessor.total_frames := Main.total_frames v;
                  VideoProcessor.show_preview := preview |}).
  set (s0 := {| VideoProcessor.frame_idx := 0;
                VideoProcessor.lane_counter := LaneCounter.__init__ lanes0;
                VideoProcessor.trace := _ |}).
  destruct (VideoProcessor.loop self Utils.log (Main.frames v) s0) as [s' ex] eqn:E.
  simpl. intros ->.
  apply loop_end_of_stream in E as (objss & Hall & Hrows & Hw).
  exists objss. split; [done|]. simpl.
  rewrite !csv_rows_app, !written_frames_app, Hrows, Hw. simpl.
  by rewrite !app_nil_r.
Qed.

Lemma record_of_columns lanes idx fps obj :
  match LaneCounter.first_lane lanes (LaneCounter.centroid (bbox obj)) with
  | None => record_of lanes idx fps obj = None
  | Some L =>
      exists secs,
        truncates (inject_Z idx / fps) secs /\
        record_of lanes idx fps obj =
          Some [pretty (track_id obj); pretty L; pretty idx;
                Utils.timedelta_str secs] /\
        (0 <= secs < 86400 ->
         Utils.timedelta_str secs =
           pretty (secs / 3600) +:+ ":" +:+ Utils.two_digits (secs / 60 mod 60)
             +:+ ":" +:+ Utils.two_digits (secs mod 60))
  end.
Proof.
  unfold record_of. destruct (LaneCounter.first_lane _ _) as [L|]; [|done].
  exists (Py.int (inject_Z idx / fps)). split; [apply int_truncates|].
  split; [done | apply timedelta_under_a_day].
Qed.

End LogRecords.

(** C8 as stated fails. A frame interrupted after it was tracked, counted
    and written, as its first record is about to be logged, leaves track 1
    in lane 1 with no record at all; and once [frame_index / fps] reaches a
    day the timestamp is no longer of the form hours:minutes:seconds. *)
Lemma record_missing_for_interrupted_frame :
  let out := Main.main (H := Convex.cv2) (Sample.video [Sample.frame_interrupted]) in
  Tracker.update (VideoProcessor.detections Sample.frame_interrupted)
                 (VideoProcessor.tracks Sample.frame_interrupted)
    = Ok [Sample.tracked_car] /\
  (exists c,
      out.2 = Ok c /\
      LaneCounter.assign_lane (H := Convex.cv2) c (bbox Sample.tracked_car) = Some 1 /\
      LaneCounter.counts c !! 1 = Some 1) /\
  written_frames out.1 = [1] /\
  csv_rows out.1 = [Utils.header] /\
  record_of (H := Convex.cv2) Sample.lanes3 86400 1 Sample.car_in_lane1 =
    Some ["1"; "1"; "86400"; "1 day, 0:00:00"].
Proof.
  split; [reflexivity|]. split; [|by vm_compute].
  eexists. split; [reflexivity|]. split; reflexivity.
Qed.

(** The frame on which the user quits from the preview is written to the
    output and counted, and none of its records is logged. *)
Lemma quit_frame_not_logged :
  let out := Main.main (H := Convex.cv2) (Sample.video [Sample.frame_quit]) in
  (exists c, out.2 = Ok c /\ LaneCounter.counts c !! 1 = Some 1) /\
  written_frames out.1 = [1] /\
  csv_rows out.1 = [Utils.header].
Proof.
  split; [|by vm_compute]. eexists. split; reflexivity.
Qed.

(** C8, amended. The header row is the first row of every run.  Every
    iteration of the loop that runs to its end appends exactly the records
    owed to its frame: one per tracked object whose centroid is in a lane,
    in the order of the tracked objects, and none for the others.  When
    the loop ends with the stream, the log is the header followed by the
    records of frames 1, 2, ... in turn.  A record holds the track
    identifier, the lane identifier, the frame index and the text of
    [frame_index / fps] cut to whole seconds, which reads H:MM:SS while it
    is under a day. *)
Theorem csv_log_of_completed_frames `{Cv2} :
  (forall lanes0 preview v,
     exists rows,
       csv_rows (Main.pipeline lanes0 preview v).1 = Utils.header :: rows) /\
  (forall self fi s s' u,
     VideoProcessor.frame_body self Utils.log fi s = (s', VideoProcessor.Next u) ->
     exists objs,
       Tracker.update (VideoProcessor.detections fi) (VideoProcessor.tracks fi)
         = Ok objs /\
       VideoProcessor.frame_idx s' = VideoProcessor.frame_idx s + 1 /\
       csv_rows (VideoProcessor.trace s') =
         csv_rows (VideoProcessor.trace s)
           ++ records_of (LaneCounter.lanes (VideoProcessor.lane_counter s))
                (VideoProcessor.frame_idx s + 1) (VideoProcessor.fps self) objs) /\
  (forall lanes0 preview v,
     pipeline_exit lanes0 preview v = VideoProcessor.EndOfStream ->
     exists objss,
       Forall2 (fun fi objs =>
                  Tracker.update (VideoProcessor.detections fi)
                                 (VideoProcessor.tracks fi) = Ok objs)
               (Main.frames v) objss /\
       csv_rows (Main.pipeline lanes0 preview v).1 =
         Utils.header :: records_from lanes0 1 (Main.fps v) objss) /\
  (forall lanes idx fps obj,
     match LaneCounter.first_lane lanes (LaneCounter.centroid (bbox obj)) with
     | None => record_of lanes idx fps obj = None
     | Some L =>
         exists secs,
           truncates (inject_Z idx / fps) secs /\
           record_of lanes idx fps obj =
             Some [pretty (track_id obj); pretty L; pretty idx;
                   Utils.timedelta_str secs] /\
           (0 <= secs < 86400 ->
            Utils.timedelta_str secs =
              pretty (secs / 3600) +:+ ":" +:+ Utils.two_digits (secs / 60 mod 60)
                +:+ ":" +:+ Utils.two_digits (secs mod 60))
     end).
Proof.
  split; [|split; [|split]].
  - intros lanes0 preview v.
    destruct (pipeline_trace lanes0 preview v) as (evs & _ & -> & _).
    simpl. by eexists.
  - intros self fi s s' u Hbody.
    apply frame_body_next in Hbody as (objs & ov & Hobjs & Hi & _ & Htr).
    exists objs. split; [done|]. split; [done|].
    rewrite Htr, !csv_rows_app, csv_rows_rows. simpl.
    destruct (VideoProcessor.show_preview self); simpl; by rewrite app_nil_r.
  - intros lanes0 preview v Hex.
    destruct (pipeline_end_of_stream lanes0 preview v Hex) as (objss & Hall & Hrows & _).
    by exists objss.
  - apply record_of_columns.
Qed.

Lemma csv_log_of_completed_frames_witness :
  exists objss,
    Forall2 (fun fi objs =>
               Tracker.update (VideoProcessor.detections fi)
                              (VideoProcessor.tracks fi) = Ok objs)
            [Sample.frame_car; Sample.frame_car] objss /\
    csv_rows (Main.pipeline (H := Convex.cv2) Sample.lanes3 true
                (Sample.video [Sample.frame_car; Sample.frame_car])).1 =
      Utils.header :: records_from (H := Convex.cv2) Sample.lanes3 1 30 objss.
Proof.
  pose proof (csv_log_of_completed_frames (H := Convex.cv2)) as (_ & _ & Hrun & _).
  apply (Hrun Sample.lanes3 true (Sample.video [Sample.frame_car; Sample.frame_car])).
  reflexivity.
Defined.

(** The end-to-end scenario of the specification: track 1 stays in lane 2
    for five frames; it is counted once and logged five times. *)
Example five_frames_in_lane2 :
  let out := Main.main (H := Convex.cv2) (Sample.video (replicate 5 Sample.frame_lane2)) in
  (exists c, out.2 = Ok c /\
     LaneCounter.counts c !! 1 = Some 0 /\ LaneCounter.counts c !! 2 = Some 1 /\
     LaneCounter.counts c !! 3 = Some 0) /\
  csv_rows out.1 =
    [Utils.header; ["1"; "2"; "1"; "0:00:00"]; ["1"; "2"; "2"; "0:00:00"];
     ["1"; "2"; "3"; "0:00:00"]; ["1"; "2"; "4"; "0:00:00"];
     ["1"; "2"; "5"; "0:00:00"]] /\
  written_frames out.1 = [1; 2; 3; 4; 5].
Proof.
  vm_compute. split; [|done].
  eexists. split; [reflexivity|]. by vm_compute.
Qed.

(** ** The detector's filter *)

Lemma vehicle_classes_lookup (id : Z) (name : string) :
  Detector.VEHICLE_CLASSES !! id = Some name <-> vehicle_class id name.
Proof.
  unfold Detector.VEHICLE_CLASSES, vehicle_class. simpl. split.
  - intros Hl.
    destruct (decide (id = 2)) as [->|]; [rewrite lookup_insert_eq in Hl; naive_solver|].
    rewrite lookup_insert_ne in Hl by done.
    destruct (decide (id = 3)) as [->|]; [rewrite lookup_insert_eq in Hl; naive_solver|].
    rewrite lookup_insert_ne in Hl by done.
    destruct (decide (id = 5)) as [->|]; [rewrite lookup_insert_eq in Hl; naive_solver|].
    rewrite lookup_insert_ne in Hl by done.
    destruct (decide (id = 7)) as [->|]; [rewrite lookup_insert_eq in Hl; naive_solver|].
    rewrite lookup_insert_ne in Hl by done. by rewrite lookup_empty in Hl.
  - intros [[-> ->]|[[-> ->]|[[-> ->]|[-> ->]]]]; reflexivity.
Qed.

Lemma vehicle_classes_member (id : Z) :
  is_Some (Detector.VEHICLE_CLASSES !! id) <-> id ∈ [2; 3; 5; 7].
Proof.
  split.
  - intros [name Hn%vehicle_classes_lookup]. unfold vehicle_class in Hn.
    rewrite !elem_of_cons. naive_solver.
  - rewrite !elem_of_cons, elem_of_nil.
    intros [->|[->|[->|[->|[]]]]]; by eexists.
Qed.

Lemma detect_vehicles_classes (boxes : list Detector.yolo_box) (d : detection) :
  d ∈ Detector.detect_vehicles boxes ->
  vehicle_class (det_class_id d) (det_class_name d).
Proof.
  induction boxes as [|b rest IH]; simpl; [by intros ?%elem_of_nil|].
  destruct (Detector.VEHICLE_CLASSES !! Py.int (Detector.cls b)) as [name|] eqn:E;
    [|done].
  intros [->|Hd]%elem_of_cons; [|by apply IH]. simpl.
  by apply vehicle_classes_lookup.
Qed.

(** X1. [detect_vehicles] keeps exactly the YOLO boxes whose class, cut to
    an integer, is 2, 3, 5 or 7, in their order, each with its box and
    confidence and with the name the table gives its class; no other class
    ever comes out. *)
Theorem detect_vehicles_filters (boxes : list Detector.yolo_box) :
  Forall2 detection_of
    (filter (fun b => Py.int (Detector.cls b) ∈ [2; 3; 5; 7]) boxes)
    (Detector.detect_vehicles boxes) /\
  (forall d, d ∈ Detector.detect_vehicles boxes ->
     vehicle_class (det_class_id d) (det_class_name d)).
Proof.
  split; [|intros d; apply detect_vehicles_classes].
  induction boxes as [|b rest IH]; simpl; [constructor|].
  rewrite filter_cons.
  destruct (Detector.VEHICLE_CLASSES !! Py.int (Detector.cls b)) as [name|] eqn:E.
  - rewrite decide_True by (apply vehicle_classes_member; by eexists).
    constructor; [|done].
    repeat split. simpl. by apply vehicle_classes_lookup.
  - rewrite decide_False; [done|].
    intros [? ?]%vehicle_classes_member. congruence.
Qed.

(** ** Detector and tracker together *)

Lemma find_match_member (detections : list detection) (tb : box) (d : detection) :
  Tracker.find_match detections tb = Ok (Some d) -> d ∈ detections.
Proof.
  destruct (find_match_first detections tb)
    as [(pre & d' & post & -> & _ & _ & ->) | [_ ->]]; [|done].
  intros [= ->]. set_solver.
Qed.

Lemma update_labels (detections : list detection) (tracks : list track)
    (objs : list tracked_object) :
  Tracker.update detections tracks = Ok objs ->
  Forall (fun obj =>
            (confidence obj = Null /\ class_id obj = Null /\ class_name obj = Null) \/
            exists d, d ∈ detections /\
              confidence obj = Value (det_confidence d) /\
              class_id obj = Value (det_class_id d) /\
              class_name obj = Value (det_class_name d)) objs.
Proof.
  revert objs. induction tracks as [|t rest IH]; simpl; intros objs.
  - intros [= <-]. constructor.
  - destruct (Tracker.find_match detections (trk_bbox t)) as [m|] eqn:Hm; [|done].
    simpl. destruct (Tracker.update detections rest) as [objs'|]; [|done].
    simpl. intros [= <-]. constructor; [|by apply IH].
    destruct m as [d|]; simpl; [right | by left].
    exists d. split; [by eapply find_match_member | done].
Qed.

(** X2. Whatever the detector saw and SORT answered, a tracked object
    either has no label at all (confidence, class identifier and class name
    all null) or carries one of the four vehicle classes with its name; so
    the class shown in its frame label is the text None or one of car,
    motorbike, bus, truck, and never the placeholder. *)
Theorem tracked_classes_are_vehicles (boxes : list Detector.yolo_box)
    (tracks : list track) :
  exists objs,
    Tracker.update (Detector.detect_vehicles boxes) tracks = Ok objs /\
    Forall (fun obj =>
              ((confidence obj = Null /\ class_id obj = Null /\ class_name obj = Null) \/
               exists id name,
                 vehicle_class id name /\
                 class_id obj = Value id /\ class_name obj = Value name) /\
              VideoProcessor.fstr
                (VideoProcessor.get (class_name obj) (Some "vehicle"))
                ∈ ["None"; "car"; "motorbike"; "bus"; "truck"]) objs.
Proof.
  destruct (update_returns (Detector.detect_vehicles boxes) tracks) as [objs Hobjs].
  exists objs. split; [done|].
  apply update_labels in Hobjs. eapply Forall_impl; [exact Hobjs|].
  intros obj [(Hc & Hi & Hn) | (d & Hd & Hc & Hi & Hn)]; simpl.
  - split; [by left|]. rewrite Hn. simpl. set_solver.
  - pose proof (detect_vehicles_classes _ _ Hd) as Hv.
    split; [right; by eexists _, _|]. rewrite Hn. simpl.
    destruct Hv as [[_ ->]|[[_ ->]|[[_ ->]|[_ ->]]]]; set_solver.
Qed.

(** ** More on intersection over union *)

Section IouMore.
#[local] Open Scope Q_scope.

Lemma overlap_sym a b : overlap a b -> overlap b a.
Proof. intros [p [? ?]]. by exists p. Qed.

Lemma meet_area_comm a b : box_area (meet a b) == box_area (meet b a).
Proof.
  unfold box_area, meet; simpl.
  rewrite (Q.max_comm (bx1 a)), (Q.max_comm (by1 a)),
    (Q.min_comm (bx2 a)), (Q.min_comm (by2 a)).
  reflexivity.
Qed.

Lemma iou_overlap_value a b :
  overlap a b ->
  exists q,
    Tracker._compute_iou a b = Ok q /\
    q == box_area (meet a b) / (box_area a + box_area b - box_area (meet a b)) /\
    0 < q /\ q <= 1.
Proof.
  intros Ho. eexists. split; [apply (compute_iou_overlap a b Ho)|].
  rewrite (interArea_meet a b Ho).
  pose proof (meet_area_le a b Ho) as Hla.
  pose proof (meet_area_le b a (overlap_sym a b Ho)) as Hlb.
  rewrite <- meet_area_comm in Hlb.
  assert (0 < box_area (meet a b)) as Hm.
  { apply box_area_pos. destruct Ho as [p Hp]. exists p. by apply covers_meet. }
  set (I := box_area (meet a b)) in *.
  set (A := box_area a) in *. set (B := box_area b) in *.
  assert (0 < A + B - I) as Hd by lra.
  split; [reflexivity|]. split.
  - apply Qlt_shift_div_l; [done|]. lra.
  - apply Qle_shift_div_r; [done|]. lra.
Qed.

Lemma overlap_or_not a b : overlap a b \/ ~ overlap a b.
Proof.
  destruct (Qlt_le_dec 0 (bx2 (meet a b) - bx1 (meet a b) + 1)) as [Hw|Hw];
    [destruct (Qlt_le_dec 0 (by2 (meet a b) - by1 (meet a b) + 1)) as [Hh|Hh]|].
  - left. by apply overlap_iff.
  - right. intros [_ Hh']%overlap_iff. lra.
  - right. intros [Hw' _]%overlap_iff. lra.
Qed.

End IouMore.

(** X3. [_compute_iou] never raises and its value lies between 0 and 1,
    is positive exactly when the boxes overlap, and does not depend on the
    order of the two boxes. *)
Theorem iou_symmetric_and_bounded (a b : box) :
  exists q q',
    Tracker._compute_iou a b = Ok q /\ Tracker._compute_iou b a = Ok q' /\
    (q == q')%Q /\ (0 <= q)%Q /\ (q <= 1)%Q /\ ((0 < q)%Q <-> overlap a b).
Proof.
  destruct (overlap_or_not a b) as [Ho|Hno].
  - destruct (iou_overlap_value a b Ho) as (q & Hq & Hv & Hpos & Hle).
    destruct (iou_overlap_value b a (overlap_sym a b Ho)) as (q' & Hq' & Hv' & _).
    exists q, q'. split; [done|]. split; [done|]. split.
    { rewrite Hv, Hv', (meet_area_comm b a).
      apply Qdiv_comp; [reflexivity | ring]. }
    split; [by apply Qlt_le_weak|]. split; [done|]. by split.
  - assert (~ overlap b a) as Hno' by (intros ?%overlap_sym; contradiction).
    exists 0%Q, 0%Q. unfold Tracker._compute_iou.
    rewrite !iou_path_disjoint by done.
    split; [done|]. split; [done|]. split; [reflexivity|].
    split; [apply Qle_refl|]. split; [done|].
    split; [by intros ?%Qlt_irrefl | contradiction].
Qed.

(** ** The lanes [main] lays out *)

Lemma seqZ_succ (a : Z) (m : nat) :
  seqZ a (Z.of_nat (S m)) = a :: seqZ (a + 1) (Z.of_nat m).
Proof.
  rewrite (seqZ_cons a (Z.of_nat (S m))) by lia. f_equal. f_equal; lia.
Qed.

Lemma fmap_succ_seqZ (a : Z) (m : nat) :
  (fun i => i + 1) <$> seqZ a (Z.of_nat m) = seqZ (a + 1) (Z.of_nat m).
Proof.
  revert a. induction m as [|m IH]; intros a; [done|].
  rewrite !seqZ_succ, fmap_cons. by rewrite IH.
Qed.

(** X4. [define_dynamic_lanes] raises ZeroDivisionError for zero lanes and
    otherwise returns the lanes 1, 2, ..., [num_lanes] in that order (none
    when [num_lanes] is negative); lane [i] is the rectangle from
    x = (i-1) * (width // num_lanes) to x = i * (width // num_lanes) and
    from y = int(height * ratio) down to y = height, so neighbours share an
    edge, and for a positive number of lanes the strip the lanes leave free
    on the right is narrower than [num_lanes] pixels. *)
Theorem define_dynamic_lanes_layout (width height num_lanes : Z) (ratio : Q) :
  (num_lanes = 0 ->
   Main.define_dynamic_lanes width height num_lanes ratio = Raise ZeroDivisionError) /\
  (num_lanes <> 0 ->
   exists lanes,
     Main.define_dynamic_lanes width height num_lanes ratio = Ok lanes /\
     lanes.*1 = seqZ 1 num_lanes /\
     Forall (fun it =>
               it.2 = rectangle ((it.1 - 1) * (width / num_lanes))
                        (Py.int (inject_Z height * ratio))
                        (it.1 * (width / num_lanes)) height) lanes /\
     (0 < num_lanes ->
      num_lanes * (width / num_lanes) <= width < num_lanes * (width / num_lanes) + num_lanes)).
Proof.
  unfold Main.define_dynamic_lanes. split.
  - by intros ->.
  - intros Hn. destruct (Z.eqb_spec num_lanes 0) as [|_]; [done|].
    eexists. split; [reflexivity|]. split; [|split].
    + rewrite <- list_fmap_compose.
      destruct (Z.le_gt_cases num_lanes 0) as [Hneg|Hpos].
      * by rewrite !seqZ_nil by lia.
      * rewrite <- (Z2Nat.id num_lanes) by lia.
        rewrite <- (fmap_succ_seqZ 0). done.
    + apply Forall_fmap, Forall_forall. intros i _. simpl.
      unfold Main.lane_polygon, rectangle.
      replace (i + 1 - 1) with i by lia. done.
    + intros Hpos.
      pose proof (Z.mul_div_le width num_lanes Hpos).
      pose proof (Z.mul_succ_div_gt width num_lanes Hpos). lia.
Qed.

Lemma define_dynamic_lanes_layout_witness :
  Main.define_dynamic_lanes 640 720 0 (2 # 5) = Raise ZeroDivisionError /\
  exists lanes,
    Main.define_dynamic_lanes 640 720 3 (2 # 5) = Ok lanes /\
    lanes.*1 = seqZ 1 3 /\
    Forall (fun it =>
              it.2 = rectangle ((it.1 - 1) * (640 / 3))
                       (Py.int (inject_Z 720 * (2 # 5)))
                       (it.1 * (640 / 3)) 720) lanes /\
    (0 < 3 -> 3 * (640 / 3) <= 640 < 3 * (640 / 3) + 3).
Proof.
  split.
  - apply (define_dynamic_lanes_layout 640 720 0 (2 # 5)). reflexivity.
  - apply (define_dynamic_lanes_layout 640 720 3 (2 # 5)). lia.
Defined.

Section Bands.
Context `{Cv2}.
Variables (lw sy h cx cy : Z).
Hypothesis Hrect : answers_rectangles H.
Hypothesis Hlw : 0 < lw.
Hypothesis Hsy : sy < h.

Lemma band_contains (i : Z) :
  contains (Main.lane_polygon lw sy h i) (cx, cy) <->
  i * lw <= cx <= (i + 1) * lw /\ sy <= cy <= h.
Proof.
  unfold contains. change (Main.lane_polygon lw sy h i)
    with (rectangle (i * lw) sy ((i + 1) * lw) h).
  apply Hrect; lia.
Qed.

(** Walking the bands from band [a] on: the first band that holds [cx],
    the left one where two bands meet. *)
Lemma first_lane_bands (m : nat) (a : Z) :
  sy <= cy <= h ->
  a * lw <= cx <= (a + Z.of_nat (S m)) * lw ->
  exists L,
    LaneCounter.first_lane
      ((fun i => (i + 1, Main.lane_polygon lw sy h i)) <$> seqZ a (Z.of_nat (S m)))
      (cx, cy) = Some L /\
    a + 1 <= L <= a + Z.of_nat (S m) /\
    (L - 1) * lw <= cx <= L * lw /\
    (a + 1 < L -> (L - 1) * lw < cx).
Proof.
  intros Hcy. revert a. induction m as [|m IH]; intros a Hcx.
  - exists (a + 1). rewrite seqZ_succ. simpl.
    destruct (Z.leb_spec 0 (pointPolygonTest (Main.lane_polygon lw sy h a) (cx, cy)))
      as [Hin|Hout].
    + split; [done|]. replace (a + 1 - 1) with a by lia. lia.
    + exfalso. apply Z.lt_nge in Hout. apply Hout. apply band_contains. lia.
  - rewrite seqZ_succ. rewrite fmap_cons. cbn [LaneCounter.first_lane].
    destruct (Z.leb_spec 0 (pointPolygonTest (Main.lane_polygon lw sy h a) (cx, cy)))
      as [Hin|Hout].
    + apply band_contains in Hin. exists (a + 1). split; [done|].
      replace (a + 1 - 1) with a by lia. lia.
    + assert (~ contains (Main.lane_polygon lw sy h a) (cx, cy)) as Hno
        by (unfold contains; lia).
      rewrite band_contains in Hno.
      destruct (IH (a + 1)) as (L & HL & Hr & Hb & Hs); [lia|].
      exists L. split; [done|]. split; [lia|]. split; [done|].
      intros _. destruct (decide (L = a + 2)) as [->|]; [|apply Hs; lia].
      replace (a + 2 - 1) with (a + 1) by lia. lia.
Qed.

Lemma no_band_contains (n : Z) :
  cy < sy \/ h < cy \/ cx < 0 \/ n * lw < cx ->
  LaneCounter.first_lane
    ((fun i => (i + 1, Main.lane_polygon lw sy h i)) <$> seqZ 0 n) (cx, cy) = None.
Proof.
  intros Hout. apply first_lane_none, Forall_fmap, Forall_forall.
  intros i [Hi0 Hin]%elem_of_seqZ. simpl. rewrite band_contains. nia.
Qed.

End Bands.

(** X5. With OpenCV answering rightly on rectangles, the lanes [main] lays
    out attribute a box by its centroid alone: a centroid inside the bands
    goes to the lane whose band holds its x, to the left lane when it sits
    on the edge two lanes share; a centroid above the bands, below the
    frame, left of the first band or in the free strip right of the last
    one goes to no lane. *)
Theorem lane_of_centroid `{Cv2} (width height num_lanes : Z) (ratio : Q)
    (lanes : list (Z * polygon)) (self : LaneCounter.t) (b : box) :
  answers_rectangles H ->
  Main.define_dynamic_lanes width height num_lanes ratio = Ok lanes ->
  LaneCounter.lanes self = lanes ->
  0 < num_lanes -> 0 < width / num_lanes ->
  Py.int (inject_Z height * ratio) < height ->
  let lw := width / num_lanes in
  let sy := Py.int (inject_Z height * ratio) in
  let cx := (LaneCounter.centroid b).1 in
  let cy := (LaneCounter.centroid b).2 in
  (sy <= cy <= height -> 0 <= cx <= num_lanes * lw ->
   exists L,
     LaneCounter.assign_lane self b = Some L /\
     1 <= L <= num_lanes /\
     (L - 1) * lw <= cx <= L * lw /\
     (1 < L -> (L - 1) * lw < cx)) /\
  (cy < sy \/ height < cy \/ cx < 0 \/ num_lanes * lw < cx ->
   LaneCounter.assign_lane self b = None).
Proof.
  intros Hrect Hdef Hself Hn Hlw Hsy lw sy cx cy.
  unfold Main.define_dynamic_lanes in Hdef.
  destruct (Z.eqb_spec num_lanes 0) as [|_]; [lia|]. injection Hdef as <-.
  unfold LaneCounter.assign_lane. rewrite Hself.
  rewrite (surjective_pairing (LaneCounter.centroid b)). fold cx cy lw sy.
  split.
  - intros Hcy Hcx.
    destruct (Z.to_nat num_lanes) as [|m] eqn:Em; [lia|].
    destruct (first_lane_bands lw sy height cx cy Hrect Hlw Hsy m 0 Hcy)
      as (L & HL & Hr & Hb & Hs); [lia|].
    replace (Z.of_nat (S m)) with num_lanes in * by lia.
    exists L. split; [done|]. split; [lia|]. split; [done|]. intros ?. apply Hs. lia.
  - intros Hout. by apply no_band_contains.
Qed.

Lemma sign_cases (t : Z) :
  ((0 <? t) = true /\ (t <? 0) = false /\ (0 <=? t) = true /\ (t <=? 0) = false /\ 0 < t) \/
  ((0 <? t) = false /\ (t <? 0) = false /\ (0 <=? t) = true /\ (t <=? 0) = true /\ t = 0) \/
  ((0 <? t) = false /\ (t <? 0) = true /\ (0 <=? t) = false /\ (t <=? 0) = true /\ t < 0).
Proof.
  destruct (Z.ltb_spec 0 t), (Z.ltb_spec t 0), (Z.leb_spec 0 t), (Z.leb_spec t 0);
    try lia; auto 10.
Qed.

(** The convex query is right on rectangles. *)
Lemma convex_answers_rectangles : answers_rectangles Convex.cv2.
Proof.
  intros x1 y1 x2 y2 px py Hx Hy.
  unfold pointPolygonTest, Convex.cv2, Convex.test, Convex.edges, rectangle.
  change (rotate 1 [(x1, y1); (x2, y1); (x2, y2); (x1, y2)])
    with [(x2, y1); (x2, y2); (x1, y2); (x1, y1)].
  cbn [zip zip_with fmap list_fmap forallb fst snd].
  unfold Convex.cross. cbn [fst snd].
  replace ((x2 - x1) * (py - y1) - (y1 - y1) * (px - x1)) with ((x2 - x1) * (py - y1)) by ring.
  replace ((x2 - x2) * (py - y1) - (y2 - y1) * (px - x2)) with ((y2 - y1) * (x2 - px)) by ring.
  replace ((x1 - x2) * (py - y2) - (y2 - y2) * (px - x2)) with ((x2 - x1) * (y2 - py)) by ring.
  replace ((x1 - x1) * (py - y2) - (y1 - y2) * (px - x1)) with ((y2 - y1) * (px - x1)) by ring.
  assert (forall k t, 0 < k -> (0 <? k * t) = (0 <? t)) as Hpos.
  { intros k t Hk. destruct (Z.ltb_spec 0 t), (Z.ltb_spec 0 (k * t)); nia. }
  assert (forall k t, 0 < k -> (k * t <? 0) = (t <? 0)) as Hneg.
  { intros k t Hk. destruct (Z.ltb_spec t 0), (Z.ltb_spec (k * t) 0); nia. }
  assert (forall k t, 0 < k -> (0 <=? k * t) = (0 <=? t)) as Hpos'.
  { intros k t Hk. destruct (Z.leb_spec 0 t), (Z.leb_spec 0 (k * t)); nia. }
  assert (forall k t, 0 < k -> (k * t <=? 0) = (t <=? 0)) as Hneg'.
  { intros k t Hk. destruct (Z.leb_spec t 0), (Z.leb_spec (k * t) 0); nia. }
  rewrite !Hpos, !Hneg, !Hpos', !Hneg' by lia.
  destruct (sign_cases (py - y1)) as [(-> & -> & -> & -> & ?)|[(-> & -> & -> & -> & ?)|(-> & -> & -> & -> & ?)]];
  destruct (sign_cases (x2 - px)) as [(-> & -> & -> & -> & ?)|[(-> & -> & -> & -> & ?)|(-> & -> & -> & -> & ?)]];
  destruct (sign_cases (y2 - py)) as [(-> & -> & -> & -> & ?)|[(-> & -> & -> & -> & ?)|(-> & -> & -> & -> & ?)]];
  destruct (sign_cases (px - x1)) as [(-> & -> & -> & -> & ?)|[(-> & -> & -> & -> & ?)|(-> & -> & -> & -> & ?)]];
  simpl; lia.
Qed.

Lemma lane_of_centroid_witness :
  (exists L,
     LaneCounter.assign_lane (H := Convex.cv2)
       (LaneCounter.__init__ Sample.main_lanes) Sample.on_main_edge = Some L /\
     1 <= L <= 3 /\ (L - 1) * 213 <= 213 <= L * 213 /\ (1 < L -> (L - 1) * 213 < 213)) /\
  LaneCounter.assign_lane (H := Convex.cv2)
    (LaneCounter.__init__ Sample.main_lanes) (Box 640 300 640 300) = None.
Proof.
  split.
  - apply (lane_of_centroid (H := Convex.cv2) 640 720 3 (2 # 5) Sample.main_lanes
             (LaneCounter.__init__ Sample.main_lanes) Sample.on_main_edge
             convex_answers_rectangles eq_refl eq_refl); vm_compute; intuition discriminate.
  - apply (lane_of_centroid (H := Convex.cv2) 640 720 3 (2 # 5) Sample.main_lanes
             (LaneCounter.__init__ Sample.main_lanes) (Box 640 300 640 300)
             convex_answers_rectangles eq_refl eq_refl); vm_compute; intuition discriminate.
Defined.

(** ** What the ledger holds *)

Section LedgerContents.
Context `{Cv2}.

Lemma attributed_cons lanes L obj objs :
  attributed lanes L (obj :: objs) =
    (if decide (LaneCounter.first_lane lanes (LaneCounter.centroid (bbox obj)) = Some L)
     then {[track_id obj]} else ∅) ∪ attributed lanes L objs.
Proof.
  unfold attributed. rewrite filter_cons.
  destruct (decide (LaneCounter.first_lane lanes
                      (LaneCounter.centroid (bbox obj)) = Some L)); simpl; set_solver.
Qed.

Lemma steps_attributed self objs self' L ids :
  steps self objs self' ->
  LaneCounter.tracked_ids self !! L = Some ids ->
  LaneCounter.tracked_ids self' !! L =
    Some (ids ∪ attributed (LaneCounter.lanes self) L objs).
Proof.
  intros Hsteps. revert ids.
  induction Hsteps as [self|self obj self1 rest self2 Hstep Hrest IH]; intros ids Hids.
  - rewrite Hids. f_equal. unfold attributed. simpl. set_solver.
  - rewrite attributed_cons.
    pose proof (step_case_lanes _ _ _ Hstep) as Hl. rewrite Hl in IH.
    destruct Hstep as [HL | M ids' HL Hids' Hin | M ids' HL Hids' Hout];
      unfold LaneCounter.assign_lane in HL.
    + rewrite (IH ids Hids). f_equal. rewrite HL.
      rewrite decide_False by done. set_solver.
    + rewrite (IH ids Hids). f_equal. rewrite HL.
      destruct (decide (Some M = Some L)) as [[= ->]|]; [|set_solver].
      rewrite Hids in Hids'. injection Hids' as <-. set_solver.
    + rewrite HL.
      destruct (decide (Some M = Some L)) as [[= ->]|Hne].
      * rewrite Hids in Hids'. injection Hids' as <-.
        rewrite (IH ({[track_id obj]} ∪ ids)); [f_equal; set_solver|].
        simpl. by rewrite lookup_insert_eq.
      * rewrite (IH ids); [f_equal; set_solver|].
        simpl. rewrite lookup_insert_ne by congruence. done.
Qed.

Lemma reached_contents lanes0 calls self L :
  LaneCounter.update_all (LaneCounter.__init__ lanes0) calls = Ok self ->
  L ∈ lanes0.*1 ->
  LaneCounter.tracked_ids self !! L = Some (attributed lanes0 L (concat calls)) /\
  LaneCounter.counts self !! L =
    Some (Z.of_nat (size (attributed lanes0 L (concat calls)))).
Proof.
  intros Hrun HL.
  destruct (update_all_ok _ calls (init_ok lanes0)) as (self' & Hrun' & Hsteps & Hok).
  rewrite Hrun in Hrun'. injection Hrun' as <-.
  assert (LaneCounter.tracked_ids self !! L = Some (attributed lanes0 L (concat calls)))
    as Hids.
  { rewrite (steps_attributed _ _ _ L ∅ Hsteps).
    - simpl. f_equal. set_solver.
    - simpl. rewrite lookup_const_map. by rewrite decide_True. }
  split; [done|]. by apply (Ledger.ok_count _ Hok).
Qed.

End LedgerContents.

(** X6. After any sequence of [update_counts] calls the counted set of a
    configured lane is exactly the set of track identifiers of the objects,
    over all the calls, whose centroid resolved to that lane, and the
    lane's count is the number of those identifiers: each vehicle once,
    however many frames it stays, and nothing for objects outside every
    lane. *)
Theorem ledger_counts_distinct_tracks `{Cv2} (lanes0 : list (Z * polygon))
    (calls : list (list tracked_object)) :
  exists self,
    LaneCounter.update_all (LaneCounter.__init__ lanes0) calls = Ok self /\
    forall L, L ∈ lanes0.*1 ->
      LaneCounter.tracked_ids self !! L = Some (attributed lanes0 L (concat calls)) /\
      LaneCounter.counts self !! L =
        Some (Z.of_nat (size (attributed lanes0 L (concat calls)))).
Proof.
  destruct (update_all_ok _ calls (init_ok lanes0)) as (self & Hrun & _ & _).
  exists self. split; [done|]. intros L HL. by apply reached_contents.
Qed.

(** ** Drawing the lanes *)

Lemma draw_lanes_overlays (counts : gmap Z Z) (items : list (Z * polygon))
    (shown : Z -> Z) :
  Forall (fun it => it.2 <> [] /\ counts !! it.1 = Some (shown it.1)) items ->
  VideoProcessor.draw_lanes counts items =
    Ok (concat ((fun it => lane_overlay it (shown it.1)) <$> items)).
Proof.
  induction 1 as [|[l p] rest [Hp Hc] _ IH]; [done|]. simpl in *.
  destruct p as [|[x y] p]; [done|]. rewrite Hc, IH. done.
Qed.

(** X7. After any sequence of [update_counts] calls on lanes whose
    polygons are not empty, [draw_lanes] finds every count it looks up and
    draws, lane by lane in configuration order, the outline of the lane and
    the text "Lane id: n" ten pixels above its first vertex, [n] being the
    number of distinct tracks counted in the lane. *)
Theorem draw_lanes_after_run `{Cv2} (lanes0 : list (Z * polygon))
    (calls : list (list tracked_object)) :
  Forall (fun it => it.2 <> []) lanes0 ->
  exists self,
    LaneCounter.update_all (LaneCounter.__init__ lanes0) calls = Ok self /\
    VideoProcessor.draw_lanes (LaneCounter.counts self) (LaneCounter.lanes self) =
      Ok (concat
            ((fun it =>
                lane_overlay it
                  (Z.of_nat (size (attributed lanes0 it.1 (concat calls)))))
               <$> lanes0)).
Proof.
  intros Hpoly.
  destruct (update_all_ok _ calls (init_ok lanes0)) as (self & Hrun & _ & _).
  exists self. split; [done|].
  destruct (reached_ok _ _ _ Hrun) as [_ ->].
  apply (draw_lanes_overlays _ _
           (fun L => Z.of_nat (size (attributed lanes0 L (concat calls))))).
  apply Forall_forall. intros [l p] Hin. simpl. split.
  - rewrite Forall_forall in Hpoly. by apply (Hpoly (l, p)).
  - apply (reached_contents lanes0 calls self l Hrun).
    apply list_elem_of_fmap. by exists (l, p).
Qed.

Lemma draw_lanes_after_run_witness :
  exists self,
    LaneCounter.update_all (H := Convex.cv2) (LaneCounter.__init__ Sample.lanes3)
      [[Sample.car_in_lane1]; [Sample.car_in_lane1]] = Ok self /\
    VideoProcessor.draw_lanes (LaneCounter.counts self) (LaneCounter.lanes self) =
      Ok (concat
            ((fun it =>
                lane_overlay it
                  (Z.of_nat (size (attributed (H := Convex.cv2) Sample.lanes3 it.1
                                     (concat [[Sample.car_in_lane1]; [Sample.car_in_lane1]])))))
               <$> Sample.lanes3)).
Proof.
  apply (draw_lanes_after_run (H := Convex.cv2) Sample.lanes3
           [[Sample.car_in_lane1]; [Sample.car_in_lane1]]).
  repeat constructor; discriminate.
Defined.

(** ** The run and the ledger together *)

Section RunLedger.
Context `{Cv2}.
Import VideoProcessor.

Lemma process_frame_counter fi objs s s' ann :
  process_frame fi objs s = (s', Next ann) ->
  LaneCounter.update_counts (lane_counter s) objs = Ok (lane_counter s', ann.2).
Proof.
  unfold process_frame.
  intros ([] & s1 & ->%at_stage_next & Hk)%bind_next.
  apply bind_next in Hk as (c & s2 & [= <- <-] & Hk).
  apply bind_next in Hk as (r & s2 & [Hr ->]%lift_next & Hk).
  apply bind_next in Hk as ([] & s2 & [= <-] & Hk).
  apply bind_next in Hk as (ov & s2 & [_ ->]%lift_next & [= <- <-]).
  simpl. by destruct r.
Qed.

Lemma frame_body_counter self fi s s' u :
  frame_body self Utils.log fi s = (s', Next u) ->
  exists objs cs,
    Tracker.update (detections fi) (tracks fi) = Ok objs /\
    LaneCounter.update_counts (lane_counter s) objs = Ok (lane_counter s', cs).
Proof.
  unfold frame_body.
  intros (idx & s1 & [= <- <-] & Hk)%bind_next.
  apply bind_next in Hk as (ts & s1 & [Hts ->]%lift_next & Hk).
  apply bind_next in Hk as ([] & s1 & ->%at_stage_next & Hk).
  apply bind_next in Hk as ([] & s1 & ->%at_stage_next & Hk).
  apply bind_next in Hk as (objs & s1 & [Hobjs ->]%lift_next & Hk).
  apply bind_next in Hk as (ann & s1 & Hpf%process_frame_counter & Hk).
  apply bind_next in Hk as ([] & s2 & ->%at_stage_next & Hk).
  apply bind_next in Hk as ([] & s2 & [= <-] & Hk).
  apply bind_next in Hk as ([] & s2 & Hprev & Hk).
  apply bind_next in Hk as ([] & s3 & Hlog & Hk).
  apply bind_next in Hk as ([] & s4 & ->%at_stage_next & [= <-]).
  unfold Py.truediv in Hts. destruct (Qeq_bool (fps self) 0); [done|].
  injection Hts as <-.
  apply log_objects_next in Hlog as (_ & Hc3 & _).
  exists objs, ann.2. split; [done|]. simpl in *. rewrite Hc3.
  assert (lane_counter s2 = lane_counter s1) as ->; [|done].
  destruct (show_preview self).
  - apply bind_next in Hprev as ([] & s5 & ->%at_stage_next & Hprev).
    apply bind_next in Hprev as ([] & s5 & [= <-] & Hprev).
    destruct (key_q fi); [done|]. by injection Hprev as <-.
  - by injection Hprev as <-.
Qed.

Lemma loop_counter self frames s s' :
  loop self Utils.log frames s = (s', EndOfStream) ->
  exists objss,
    Forall2 (fun fi objs => Tracker.update (detections fi) (tracks fi) = Ok objs)
            frames objss /\
    LaneCounter.update_all (lane_counter s) objss = Ok (lane_counter s').
Proof.
  revert s. induction frames as [|fi rest IH]; intros s; simpl.
  - intros [= <-]. exists []. split; [constructor | done].
  - destruct (frame_body self Utils.log fi s) as [s1 [u| |e]] eqn:E; [|done..].
    intros Hrest.
    apply frame_body_counter in E as (objs & cs & Hobjs & Hupd).
    apply IH in Hrest as (objss & Hall & Hrun).
    exists (objs :: objss). split; [by constructor|]. simpl. by rewrite Hupd.
Qed.

Lemma pipeline_counter lanes0 preview v :
  pipeline_exit lanes0 preview v = EndOfStream ->
  exists objss c,
    Forall2 (fun fi objs => Tracker.update (detections fi) (tracks fi) = Ok objs)
            (Main.frames v) objss /\
    (Main.pipeline lanes0 preview v).2 = Ok c /\
    LaneCounter.update_all (LaneCounter.__init__ lanes0) objss = Ok c.
Proof.
  unfold pipeline_exit, Main.pipeline, run. simpl.
  set (self := {| fps := Main.fps v; total_frames := Main.total_frames v;
                  show_preview := preview |}).
  set (s0 := {| frame_idx := 0; lane_counter := LaneCounter.__init__ lanes0;
                trace := _ |}).
  destruct (loop self Utils.log (Main.frames v) s0) as [s' ex] eqn:E.
  simpl. intros ->.
  apply loop_counter in E as (objss & Hall & Hrun).
  by exists objss, (lane_counter s').
Qed.

End RunLedger.

(** X8. When the loop ends with the stream, the counter [main] hands to
    [print_summary] is the one [update_counts] produces when called once
    per frame, in frame order, on the tracked objects of that frame: the
    final count of a lane is the number of distinct tracks that
    [assign_lane] resolved to that lane (the first lane in configuration
    order whose polygon holds the centroid) on some frame. *)
Theorem final_counts_are_distinct_tracks `{Cv2} (lanes0 : list (Z * polygon))
    (preview : bool) (v : Main.video) :
  pipeline_exit lanes0 preview v = VideoProcessor.EndOfStream ->
  exists objss c,
    Forall2 (fun fi objs =>
               Tracker.update (VideoProcessor.detections fi)
                              (VideoProcessor.tracks fi) = Ok objs)
            (Main.frames v) objss /\
    (Main.pipeline lanes0 preview v).2 = Ok c /\
    LaneCounter.update_all (LaneCounter.__init__ lanes0) objss = Ok c /\
    forall L, L ∈ lanes0.*1 ->
      LaneCounter.tracked_ids c !! L = Some (attributed lanes0 L (concat objss)) /\
      LaneCounter.counts c !! L =
        Some (Z.of_nat (size (attributed lanes0 L (concat objss)))).
Proof.
  intros Hex.
  destruct (pipeline_counter lanes0 preview v Hex) as (objss & c & Hall & Hres & Hrun).
  exists objss, c. split; [done|]. split; [done|]. split; [done|].
  intros L HL. by apply reached_contents.
Qed.

Lemma final_counts_are_distinct_tracks_witness :
  exists objss c,
    Forall2 (fun fi objs =>
               Tracker.update (VideoProcessor.detections fi)
                              (VideoProcessor.tracks fi) = Ok objs)
            [Sample.frame_car; Sample.frame_car] objss /\
    (Main.pipeline (H := Convex.cv2) Sample.lanes3 true
       (Sample.video [Sample.frame_car; Sample.frame_car])).2 = Ok c /\
    LaneCounter.update_all (H := Convex.cv2) (LaneCounter.__init__ Sample.lanes3) objss
      = Ok c /\
    forall L, L ∈ Sample.lanes3.*1 ->
      LaneCounter.tracked_ids c !! L =
        Some (attributed (H := Convex.cv2) Sample.lanes3 L (concat objss)) /\
      LaneCounter.counts c !! L =
        Some (Z.of_nat (size (attributed (H := Convex.cv2) Sample.lanes3 L (concat objss)))).
Proof.
  apply (final_counts_are_distinct_tracks (H := Convex.cv2) Sample.lanes3 true
           (Sample.video [Sample.frame_car; Sample.frame_car])).
  reflexivity.
Defined.

(** ** Runs of [main] *)

Section MainRuns.
Context `{Cv2}.

Lemma main_lanes_nonempty (width height : Z) :
  exists lanes,
    Main.define_dynamic_lanes width height 3 (2 # 5) = Ok lanes /\
    Forall (fun it => it.2 <> []) lanes.
Proof.
  eexists. split; [reflexivity|]. by repeat constructor.
Qed.

Lemma pipeline_clean lanes0 preview v :
  ~ (Main.fps v == 0)%Q ->
  Forall (fun fi => VideoProcessor.fault fi = None /\ VideoProcessor.key_q fi = false)
         (Main.frames v) ->
  Forall (fun it => it.2 <> []) lanes0 ->
  pipeline_exit lanes0 preview v = VideoProcessor.EndOfStream.
Proof.
  intros Hfps Hframes Hpoly. unfold pipeline_exit.
  apply loop_clean; [done| |apply init_ok|done].
  eapply Forall_impl; [exact Hframes|]. intros fi [Hf Hq]. by split.
Qed.

Lemma pipeline_ok lanes0 preview v :
  (exists u, run_result (pipeline_exit lanes0 preview v) = Ok u) ->
  exists c, (Main.pipeline lanes0 preview v).2 = Ok c.
Proof.
  intros [u Hu].
  destruct (pipeline_trace lanes0 preview v) as (_ & _ & _ & Hraise).
  destruct (Main.pipeline lanes0 preview v).2 as [c|e] eqn:E; [by exists c|].
  destruct (Hraise e) as [Habs _].
  rewrite Habs in Hu by done. done.
Qed.

End MainRuns.

(** X9. [main] on a video whose frame rate is not 0, when no call raises and
    the user never presses q: the three lanes are built, the run returns
    normally with the counter the frames' tracked objects produce, every
    frame is written to the output video once and in order, the CSV holds the
    header and the records of all frames, and each of the four resources and
    the preview windows is released exactly once. *)
Theorem main_completes `{Cv2} (v : Main.video) :
  ~ (Main.fps v == 0)%Q ->
  Forall (fun fi => VideoProcessor.fault fi = None /\ VideoProcessor.key_q fi = false)
         (Main.frames v) ->
  exists lanes objss c,
    Main.define_dynamic_lanes (Main.width v) (Main.height v) 3 (2 # 5) = Ok lanes /\
    Forall2 (fun fi objs =>
               Tracker.update (VideoProcessor.detections fi)
                              (VideoProcessor.tracks fi) = Ok objs)
            (Main.frames v) objss /\
    (Main.main v).2 = Ok c /\
    LaneCounter.update_all (LaneCounter.__init__ lanes) objss = Ok c /\
    csv_rows (Main.main v).1 =
      Utils.header :: records_from lanes 1 (Main.fps v) objss /\
    written_frames (Main.main v).1 = seqZ 1 (Z.of_nat (length (Main.frames v))) /\
    forall r, releases r (Main.main v).1 = 1%nat.
Proof.
  intros Hfps Hframes.
  destruct (main_lanes_nonempty (Main.width v) (Main.height v)) as (lanes & Hl & Hpoly).
  pose proof (pipeline_clean lanes true v Hfps Hframes Hpoly) as Hex.
  destruct (pipeline_counter lanes true v Hex) as (objss & c & Hall & Hres & Hrun).
  destruct (pipeline_end_of_stream lanes true v Hex) as (objss' & Hall' & Hrows & Hw).
  assert (objss' = objss) as ->.
  { clear -Hall Hall'. revert objss' Hall'.
    induction Hall as [|fi objs fr os Hu _ IH]; intros objss' Hall';
      inversion Hall' as [|? objs' ? os' Hu' Hrest]; subst; [done|].
    rewrite Hu in Hu'. injection Hu' as <-. f_equal. by apply IH. }
  destruct (pipeline_releases lanes true v) as (_ & Hrel & Hcsv).
  exists lanes, objss, c. unfold Main.main. rewrite Hl.
  repeat (split; [done|]).
  intros r. destruct (decide (r = CsvFile)) as [->|Hr]; [|by apply Hrel].
  by rewrite Hcsv, Hex.
Qed.

Lemma main_completes_witness :
  exists lanes objss c,
    Main.define_dynamic_lanes 640 720 3 (2 # 5) = Ok lanes /\
    Forall2 (fun fi objs =>
               Tracker.update (VideoProcessor.detections fi)
                              (VideoProcessor.tracks fi) = Ok objs)
            [Sample.frame_car; Sample.frame_lane2] objss /\
    (Main.main (H := Convex.cv2) (Sample.video [Sample.frame_car; Sample.frame_lane2])).2
      = Ok c /\
    LaneCounter.update_all (H := Convex.cv2) (LaneCounter.__init__ lanes) objss = Ok c /\
    csv_rows
      (Main.main (H := Convex.cv2) (Sample.video [Sample.frame_car; Sample.frame_lane2])).1
      = Utils.header :: records_from (H := Convex.cv2) lanes 1 30 objss /\
    written_frames
      (Main.main (H := Convex.cv2) (Sample.video [Sample.frame_car; Sample.frame_lane2])).1
      = seqZ 1 2 /\
    forall r,
      releases r
        (Main.main (H := Convex.cv2)
           (Sample.video [Sample.frame_car; Sample.frame_lane2])).1 = 1%nat.
Proof.
  apply (main_completes (H := Convex.cv2)
           (Sample.video [Sample.frame_car; Sample.frame_lane2])).
  - by vm_compute.
  - by repeat constructor.
Defined.

(** X11. [run] absorbs a KeyboardInterrupt: when the loop is left by the end
    of the stream, by the q key or by a KeyboardInterrupt raised anywhere in
    the body, the pipeline returns normally, every resource but the preview
    windows has been acquired once, and every resource, the CSV file
    included, is released exactly once. *)
Theorem normal_exits_release_everything `{Cv2} (lanes0 : list (Z * polygon))
    (preview : bool) (v : Main.video) :
  pipeline_exit lanes0 preview v = VideoProcessor.EndOfStream \/
  pipeline_exit lanes0 preview v = VideoProcessor.UserQuit \/
  pipeline_exit lanes0 preview v = VideoProcessor.Raised KeyboardInterrupt ->
  (exists c, (Main.pipeline lanes0 preview v).2 = Ok c) /\
  forall r,
    releases r (Main.pipeline lanes0 preview v).1 = 1%nat /\
    acquires r (Main.pipeline lanes0 preview v).1 =
      if decide (r = PreviewWindows) then 0%nat else 1%nat.
Proof.
  intros Hex.
  assert (run_result (pipeline_exit lanes0 preview v) = Ok tt) as Hres.
  { by destruct Hex as [-> | [-> | ->]]. }
  destruct (pipeline_releases lanes0 preview v) as (Hacq & Hrel & Hcsv).
  split; [apply pipeline_ok; by exists tt|].
  intros r. split; [|apply Hacq].
  destruct (decide (r = CsvFile)) as [->|Hr]; [|by apply Hrel].
  by rewrite Hcsv, Hres.
Qed.

Lemma normal_exits_release_everything_witness :
  (exists c,
     (Main.pipeline (H := Convex.cv2) Sample.lanes3 true
        (Sample.video [Sample.frame_car; Sample.frame_interrupted])).2 = Ok c) /\
  forall r,
    releases r
      (Main.pipeline (H := Convex.cv2) Sample.lanes3 true
         (Sample.video [Sample.frame_car; Sample.frame_interrupted])).1 = 1%nat /\
    acquires r
      (Main.pipeline (H := Convex.cv2) Sample.lanes3 true
         (Sample.video [Sample.frame_car; Sample.frame_interrupted])).1 =
      if decide (r = PreviewWindows) then 0%nat else 1%nat.
Proof.
  apply (normal_exits_release_everything (H := Convex.cv2) Sample.lanes3 true
           (Sample.video [Sample.frame_car; Sample.frame_interrupted])).
  right. right. reflexivity.
Defined.

(** ** The output video on every exit *)

Lemma ticks_app tr1 tr2 : ticks (tr1 ++ tr2) = (ticks tr1 + ticks tr2)%nat.
Proof.
  induction tr1 as [|e tr1 IH]; [done|]. destruct e; simpl; by rewrite ?IH.
Qed.

Lemma quiet_events evs :
  Forall quiet evs -> written_frames evs = [] /\ ticks evs = 0%nat.
Proof. induction 1 as [|e evs He _ IH]; [done|]. by destruct e. Qed.

Section Written.
Context `{Cv2}.
Import VideoProcessor.

Lemma bind_outcome {A B} (m : M A) (k : A -> M B) s s' o :
  bind m k s = (s', o) ->
  (exists a s1, m s = (s1, Next a) /\ k a s1 = (s', o)) \/
  (m s = (s', Stop) /\ o = Stop) \/
  (exists e, m s = (s', Throw e) /\ o = Throw e).
Proof.
  unfold bind. destruct (m s) as [s1 [a| |e]].
  - intros Hk. left. by exists a, s1.
  - intros [= <- <-]. right. by left.
  - intros [= <- <-]. right. right. by exists e.
Qed.

Lemma emits_quiet_run {A} (m : M A) s s' o :
  emits quiet m -> m s = (s', o) -> same_output s' s.
Proof.
  intros Hm Hrun. destruct (Hm s) as (evs & Htr & Hq).
  rewrite Hrun in Htr. simpl in Htr.
  destruct (quiet_events evs Hq) as [Hw Ht].
  unfold same_output. rewrite Htr, written_frames_app, ticks_app, Hw, Ht.
  by rewrite app_nil_r, Nat.add_0_r.
Qed.

Lemma emits_log_objects_rows P w fi idx ts k objs :
  (forall row, P (CsvRow row)) -> emits P (log_objects w fi idx ts k objs).
Proof.
  intros HP. revert k. induction objs as [|obj rest IH]; intros k; simpl.
  - apply emits_ret.
  - apply emits_bind; [apply emits_get_counter|]. intros c.
    destruct (LaneCounter.assign_lane c (bbox obj)); [|apply IH].
    apply emits_bind; [apply emits_at_stage|]. intros _.
    apply emits_bind; [apply emits_emit; by repeat constructor|]. intros _.
    apply IH.
Qed.

Lemma emits_preview (self : t) fi idx :
  emits quiet
    (if show_preview self
     then bind (at_stage fi AtPreview)
            (fun _ => bind (emit [ImShow idx])
               (fun _ => if key_q fi then stop else ret tt))
     else ret tt).
Proof.
  destruct (show_preview self); [|apply emits_ret].
  apply emits_bind; [apply emits_at_stage|]. intros _.
  apply emits_bind; [apply emits_emit; by repeat constructor|]. intros _.
  destruct (key_q fi); [apply emits_stop | apply emits_ret].
Qed.

Lemma same_output_trans s1 s2 s3 :
  same_output s1 s2 -> same_output s2 s3 -> same_output s1 s3.
Proof. intros [? ?] [? ?]. split; congruence. Qed.

(** What one run of the loop body adds to the output video and to the
    progress bar, by its outcome. *)
Lemma frame_body_written self w fi s s' o :
  frame_body self w fi s = (s', o) ->
  exists k t : nat,
    written_frames (trace s') = written_frames (trace s) ++ seqZ (frame_idx s + 1) (Z.of_nat k) /\
    ticks (trace s') = (ticks (trace s) + t)%nat /\
    match o with
    | Next _ => k = 1%nat /\ t = 1%nat
    | Stop => k = 1%nat /\ t = 0%nat
    | Throw _ => (k <= 1)%nat /\ t = 0%nat
    end.
Proof.
  pose (s0 := {| frame_idx := frame_idx s + 1; lane_counter := lane_counter s;
                 trace := trace s |}).
  assert (forall s1 o1, same_output s1 s0 ->
            match o1 with Throw _ => True | _ => False end ->
            exists k t : nat,
              written_frames (trace s1) =
                written_frames (trace s) ++ seqZ (frame_idx s + 1) (Z.of_nat k) /\
              ticks (trace s1) = (ticks (trace s) + t)%nat /\
              match o1 : outcome unit with
              | Next _ => k = 1%nat /\ t = 1%nat
              | Stop => k = 1%nat /\ t = 0%nat
              | Throw _ => (k <= 1)%nat /\ t = 0%nat
              end) as Hearly.
  { intros s1 o1 [Hw Ht] Ho. exists 0%nat, 0%nat.
    rewrite Hw, Ht. simpl. rewrite app_nil_r, Nat.add_0_r.
    destruct o1; try done. repeat split; try done; lia. }
  assert (forall s1 o1 ov, same_output s1
            {| frame_idx := frame_idx s0; lane_counter := lane_counter s0;
               trace := trace s ++ [WriteFrame (frame_idx s + 1) ov] |} ->
            match o1 with Next _ => False | _ => True end ->
            exists k t : nat,
              written_frames (trace s1) =
                written_frames (trace s) ++ seqZ (frame_idx s + 1) (Z.of_nat k) /\
              ticks (trace s1) = (ticks (trace s) + t)%nat /\
              match o1 : outcome unit with
              | Next _ => k = 1%nat /\ t = 1%nat
              | Stop => k = 1%nat /\ t = 0%nat
              | Throw _ => (k <= 1)%nat /\ t = 0%nat
              end) as Hlate.
  { intros s1 o1 ov [Hw Ht] Ho. exists 1%nat, 0%nat.
    rewrite Hw, Ht. simpl. rewrite written_frames_app, ticks_app. simpl.
    rewrite Nat.add_0_r.
    destruct o1; try done; repeat split; try done; lia. }
  intros Hrun. unfold frame_body in Hrun.
  apply bind_outcome in Hrun as [(idx & s1 & E & Hrun) | [[E _] | (e & E & _)]];
    [|done..].
  injection E as <- <-. fold s0 in Hrun.
  (* frame_idx / self.fps *)
  apply bind_outcome in Hrun as [(ts & s1 & E & Hrun) | [[E ->] | (e & E & ->)]].
  2: { unfold lift in E. by destruct (Py.truediv _ _). }
  2: apply (Hearly s' (Throw e)); [eapply emits_quiet_run; [apply emits_lift | exact E] | done].
  apply lift_next in E as [_ ->].
  (* the detector and SORT *)
  apply bind_outcome in Hrun as [([] & s1 & E & Hrun) | [[E ->] | (e & E & ->)]].
  2: { unfold at_stage in E. destruct (fault fi) as [[? ?]|]; [|done].
       case_decide; [|done]. done. }
  2: apply (Hearly s' (Throw e)); [eapply emits_quiet_run; [apply emits_at_stage | exact E] | done].
  apply at_stage_next in E as ->.
  apply bind_outcome in Hrun as [([] & s1 & E & Hrun) | [[E ->] | (e & E & ->)]].
  2: { unfold at_stage in E. destruct (fault fi) as [[? ?]|]; [|done].
       case_decide; [|done]. done. }
  2: apply (Hearly s' (Throw e)); [eapply emits_quiet_run; [apply emits_at_stage | exact E] | done].
  apply at_stage_next in E as ->.
  (* tracker.update *)
  apply bind_outcome in Hrun as [(objs & s1 & E & Hrun) | [[E ->] | (e & E & ->)]].
  2: { unfold lift in E. by destruct (Tracker.update _ _). }
  2: apply (Hearly s' (Throw e)); [eapply emits_quiet_run; [apply emits_lift | exact E] | done].
  apply lift_next in E as [_ ->].
  (* process_frame *)
  apply bind_outcome in Hrun as [(ann & s1 & E & Hrun) | [[E ->] | (e & E & ->)]].
  2: { apply bind_outcome in E as [([] & s2 & E2 & E) | [[E2 _] | (e & E2 & ?)]]; [|
         unfold at_stage in E2; destruct (fault fi) as [[? ?]|]; [|done];
         case_decide; done | done].
       apply bind_outcome in E as [(c & s3 & E3 & E) | [[E3 _] | (e & E3 & ?)]]; [|done..].
       apply bind_outcome in E as [(r & s4 & E4 & E) | [[E4 _] | (e & E4 & ?)]];
         [|unfold lift in E4; by destruct (LaneCounter.update_counts _ _) | done].
       apply bind_outcome in E as [([] & s5 & E5 & E) | [[E5 _] | (e & E5 & ?)]]; [|done..].
       apply bind_outcome in E as [(ov & s6 & E6 & E) | [[E6 _] | (e & E6 & ?)]];
         [done | unfold lift in E6; by destruct (draw_lanes _ _) | done]. }
  2: apply (Hearly s' (Throw e)); [eapply emits_quiet_run; [apply emits_process_frame | exact E] | done].
  pose proof (emits_quiet_run _ _ _ _ (emits_process_frame quiet fi objs) E) as Hs1.
  (* self.out.write *)
  apply bind_outcome in Hrun as [([] & s2 & E2 & Hrun) | [[E2 ->] | (e & E2 & ->)]].
  2: { unfold at_stage in E2. destruct (fault fi) as [[? ?]|]; [|done].
       case_decide; done. }
  2: { apply (Hearly s' (Throw e)); [|done]. eapply same_output_trans; [|exact Hs1].
       eapply emits_quiet_run; [apply emits_at_stage | exact E2]. }
  apply at_stage_next in E2 as ->.
  apply bind_outcome in Hrun as [([] & s2 & E2 & Hrun) | [[E2 _] | (e & E2 & _)]];
    [|done..].
  injection E2 as <-.
  assert (same_output
            {| frame_idx := frame_idx s1; lane_counter := lane_counter s1;
               trace := trace s1 ++ [WriteFrame (frame_idx s + 1) ann.1] |}
            {| frame_idx := frame_idx s0; lane_counter := lane_counter s0;
               trace := trace s ++ [WriteFrame (frame_idx s + 1) ann.1] |}) as Hs2.
  { destruct Hs1 as [Hw Ht]. split; simpl in *.
    - by rewrite !written_frames_app, Hw.
    - by rewrite !ticks_app, Ht. }
  (* the preview *)
  apply bind_outcome in Hrun as [([] & s3 & E3 & Hrun) | [[E3 ->] | (e & E3 & ->)]].
  2: { apply (Hlate s' Stop ann.1); [|done]; eapply same_output_trans; [|exact Hs2];
       eapply emits_quiet_run; [apply (emits_preview self fi) | exact E3]. }
  2: { apply (Hlate s' (Throw e) ann.1); [|done]; eapply same_output_trans; [|exact Hs2];
       eapply emits_quiet_run; [apply (emits_preview self fi) | exact E3]. }
  pose proof (emits_quiet_run _ _ _ _ (emits_preview self fi (frame_idx s + 1)) E3) as Hs3.
  (* the CSV records *)
  apply bind_outcome in Hrun as [([] & s4 & E4 & Hrun) | [[E4 ->] | (e & E4 & ->)]].
  2: { apply (Hlate s' Stop ann.1); [|done]; eapply same_output_trans; [|exact Hs2];
       eapply same_output_trans; [|exact Hs3];
       eapply emits_quiet_run; [apply emits_log_objects_rows; by intros | exact E4]. }
  2: { apply (Hlate s' (Throw e) ann.1); [|done]; eapply same_output_trans; [|exact Hs2];
       eapply same_output_trans; [|exact Hs3];
       eapply emits_quiet_run; [apply emits_log_objects_rows; by intros | exact E4]. }
  pose proof (emits_quiet_run _ _ _ _
                (emits_log_objects_rows quiet w fi _ _ _ objs (fun _ => I)) E4) as Hs4.
  (* pbar.update *)
  apply bind_outcome in Hrun as [([] & s5 & E5 & Hrun) | [[E5 ->] | (e & E5 & ->)]].
  2: { apply (Hlate s' Stop ann.1); [|done]; eapply same_output_trans; [|exact Hs2];
       eapply same_output_trans; [|exact Hs3]; eapply same_output_trans; [|exact Hs4];
       eapply emits_quiet_run; [apply emits_at_stage | exact E5]. }
  2: { apply (Hlate s' (Throw e) ann.1); [|done]; eapply same_output_trans; [|exact Hs2];
       eapply same_output_trans; [|exact Hs3]; eapply same_output_trans; [|exact Hs4];
       eapply emits_quiet_run; [apply emits_at_stage | exact E5]. }
  apply at_stage_next in E5 as ->.
  injection Hrun as <- <-.
  destruct (same_output_trans _ _ _ Hs4 (same_output_trans _ _ _ Hs3 Hs2)) as [Hw Ht].
  exists 1%nat, 1%nat. simpl in *.
  rewrite written_frames_app, ticks_app, Hw, Ht, written_frames_app, ticks_app. simpl.
  rewrite app_nil_r. split; [done|]. split; [lia|done].
Qed.

Lemma frame_body_index self w fi s s' u :
  frame_body self w fi s = (s', Next u) -> frame_idx s' = frame_idx s + 1.
Proof.
  unfold frame_body.
  intros (idx & s1 & [= <- <-] & Hk)%bind_next.
  apply bind_next in Hk as (ts & s1 & [Hts ->]%lift_next & Hk).
  apply bind_next in Hk as ([] & s1 & ->%at_stage_next & Hk).
  apply bind_next in Hk as ([] & s1 & ->%at_stage_next & Hk).
  apply bind_next in Hk as (objs & s1 & [Hobjs ->]%lift_next & Hk).
  apply bind_next in Hk as (ann & s1 & (Hi1 & _)%process_frame_next & Hk).
  apply bind_next in Hk as ([] & s2 & ->%at_stage_next & Hk).
  apply bind_next in Hk as ([] & s2 & [= <-] & Hk).
  apply bind_next in Hk as ([] & s2 & Hprev & Hk).
  apply bind_next in Hk as ([] & s3 & Hlog & Hk).
  apply bind_next in Hk as ([] & s4 & ->%at_stage_next & [= <-]).
  simpl.
  assert (frame_idx s3 = frame_idx s2) as ->.
  { clear -Hlog. revert Hlog. generalize 0%nat. revert s2.
    induction objs as [|obj rest IH]; intros s2 k; simpl.
    - by intros [= <-].
    - intros (c & s5 & [= <- <-] & Hk)%bind_next.
      destruct (LaneCounter.assign_lane _ _); [|by eapply IH].
      apply bind_next in Hk as ([] & s5 & ->%at_stage_next & Hk).
      apply bind_next in Hk as ([] & s5 & [= <-] & Hk).
      by apply IH in Hk. }
  assert (frame_idx s2 = frame_idx s1) as ->; [|done].
  destruct (show_preview self).
  - apply bind_next in Hprev as ([] & s5 & ->%at_stage_next & Hprev).
    apply bind_next in Hprev as ([] & s5 & [= <-] & Hprev).
    destruct (key_q fi); [done|]. by injection Hprev as <-.
  - by injection Hprev as <-.
Qed.

Lemma loop_written self w frames s s' ex :
  loop self w frames s = (s', ex) ->
  exists k t : nat,
    written_frames (trace s') =
      written_frames (trace s) ++ seqZ (frame_idx s + 1) (Z.of_nat k) /\
    ticks (trace s') = (ticks (trace s) + t)%nat /\
    (t <= k <= t + 1)%nat /\ (k <= length frames)%nat /\
    match ex with
    | EndOfStream => t = length frames
    | UserQuit => k = (t + 1)%nat
    | Raised _ => True
    end.
Proof.
  revert s. induction frames as [|fi rest IH]; intros s; simpl.
  - intros [= <- <-]. exists 0%nat, 0%nat. simpl.
    rewrite app_nil_r, Nat.add_0_r. repeat split; lia.
  - destruct (frame_body self w fi s) as [s1 o] eqn:E.
    pose proof (frame_body_written _ _ _ _ _ _ E) as (k1 & t1 & Hw1 & Ht1 & Ho).
    destruct o as [u| |e].
    + intros Hrest. apply frame_body_index in E.
      apply IH in Hrest as (k & t & Hw & Ht & Hkt & Hk & Hex).
      destruct Ho as [-> ->].
      exists (S k), (S t). rewrite Hw, Hw1, Ht, Ht1, E, <- app_assoc.
      split.
      { f_equal. rewrite (seqZ_cons (frame_idx s + 1) (Z.of_nat (S k))) by lia.
        simpl. do 2 f_equal; lia. }
      split; [lia|]. split; [lia|]. split; [lia|].
      destruct ex; lia || done.
    + intros [= <- <-]. destruct Ho as [-> ->].
      exists 1%nat, 0%nat. repeat split; (done || lia).
    + intros [= <- <-]. destruct Ho as [Hk1 ->].
      exists k1, 0%nat. repeat split; (done || lia).
Qed.

End Written.

(** X12. However the loop is left, the frames written to the output video
    are the frames 1, 2, ..., k of the input, each once and in order, with k
    at most the number of frames delivered; the progress bar has then been
    advanced k or k - 1 times.  At the end of the stream both are the number
    of frames; on a quit by the q key the frame on which the user quit is
    written but not ticked. *)
Theorem written_frames_consecutive `{Cv2} (lanes0 : list (Z * polygon))
    (preview : bool) (v : Main.video) :
  exists k : nat,
    written_frames (Main.pipeline lanes0 preview v).1 = seqZ 1 (Z.of_nat k) /\
    (k <= length (Main.frames v))%nat /\
    (ticks (Main.pipeline lanes0 preview v).1 <= k
       <= ticks (Main.pipeline lanes0 preview v).1 + 1)%nat /\
    match pipeline_exit lanes0 preview v with
    | VideoProcessor.EndOfStream =>
        k = length (Main.frames v) /\ ticks (Main.pipeline lanes0 preview v).1 = k
    | VideoProcessor.UserQuit =>
        k = (ticks (Main.pipeline lanes0 preview v).1 + 1)%nat
    | VideoProcessor.Raised _ => True
    end.
Proof.
  unfold pipeline_exit, Main.pipeline, VideoProcessor.run. simpl.
  set (self := {| VideoProcessor.fps := Main.fps v;
                  VideoProcessor.total_frames := Main.total_frames v;
                  VideoProcessor.show_preview := preview |}).
  set (s0 := {| VideoProcessor.frame_idx := 0;
                VideoProcessor.lane_counter := LaneCounter.__init__ lanes0;
                VideoProcessor.trace := _ |}).
  destruct (VideoProcessor.loop self Utils.log (Main.frames v) s0) as [s' ex] eqn:E.
  apply loop_written in E as (k & t & Hw & Ht & Hkt & Hk & Hex).
  simpl in Hw, Ht.
  exists k.
  assert (forall tail, Forall (fun e => match e with Release _ => True | _ => False end) tail ->
            written_frames (VideoProcessor.trace s' ++ tail) = seqZ 1 (Z.of_nat k) /\
            ticks (VideoProcessor.trace s' ++ tail) = t) as Htail.
  { intros tail Htl. rewrite written_frames_app, ticks_app, Hw, Ht.
    assert (written_frames tail = [] /\ ticks tail = 0%nat) as [-> ->].
    { clear -Htl. induction Htl as [|e tl He _ IH]; [done|]. by destruct e. }
    by rewrite app_nil_r, Nat.add_0_r. }
  destruct ex as [| |[]]; simpl;
    rewrite <- ?app_assoc;
    (edestruct Htail as [-> ->]; [by repeat constructor|]);
    repeat split; lia || done.
Qed.

(** ** The frame on which the user quits *)

Section Quit.
Context `{Cv2}.
Import VideoProcessor.

Lemma loop_app self w pre rest s :
  loop self w (pre ++ rest) s =
    match loop self w pre s with
    | (s1, EndOfStream) => loop self w rest s1
    | other => other
    end.
Proof.
  revert s. induction pre as [|fi pre IH]; intros s; simpl; [done|].
  destruct (frame_body self w fi s) as [s1 [u| |e]]; [apply IH | done..].
Qed.

Lemma loop_index self w frames s s' :
  loop self w frames s = (s', EndOfStream) ->
  frame_idx s' = frame_idx s + Z.of_nat (length frames).
Proof.
  revert s. induction frames as [|fi rest IH]; intros s; simpl.
  - intros [= <-]. lia.
  - destruct (frame_body self w fi s) as [s1 [u| |e]] eqn:E; [|done..].
    intros Hrest. apply frame_body_index in E. apply IH in Hrest. lia.
Qed.

Lemma frame_body_quit self w fi s :
  ~ (fps self == 0)%Q -> show_preview self = true ->
  key_q fi = true -> fault fi = None ->
  Ledger.ok (lane_counter s) ->
  Forall (fun it => it.2 <> []) (LaneCounter.lanes (lane_counter s)) ->
  exists s' objs cs ov,
    frame_body self w fi s = (s', Stop) /\
    Tracker.update (detections fi) (tracks fi) = Ok objs /\
    LaneCounter.update_counts (lane_counter s) objs = Ok (lane_counter s', cs) /\
    trace s' = trace s ++ [WriteFrame (frame_idx s + 1) ov; ImShow (frame_idx s + 1)].
Proof.
  intros Hfps Hprev Hq Hf Hok Hpoly.
  destruct (update_returns (detections fi) (tracks fi)) as (objs & Hobjs).
  assert (Qeq_bool (fps self) 0 = false) as E.
  { destruct (Qeq_bool (fps self) 0) eqn:E; [|done]. by apply Qeq_bool_iff in E. }
  pose (s1 := {| frame_idx := frame_idx s + 1; lane_counter := lane_counter s;
                 trace := trace s |}).
  destruct (process_frame_clean fi objs s1 Hf Hok Hpoly) as (s2 & ann & Hpf & Hok2).
  pose proof Hpf as (_ & Htr2 & _)%process_frame_next.
  pose proof Hpf as Hc2%process_frame_counter.
  unfold frame_body.
  erewrite bind_run by reflexivity.
  erewrite bind_run by (unfold lift, Py.truediv; rewrite E; reflexivity).
  erewrite bind_run by by apply at_stage_clean.
  erewrite bind_run by by apply at_stage_clean.
  erewrite bind_run by (unfold lift; rewrite Hobjs; reflexivity).
  erewrite bind_run by exact Hpf.
  erewrite bind_run by by apply at_stage_clean.
  erewrite bind_run by reflexivity.
  rewrite Hprev, Hq.
  unfold bind at 1. erewrite bind_run by by apply at_stage_clean.
  erewrite bind_run by reflexivity. unfold stop.
  eexists _, objs, ann.2, ann.1. split; [reflexivity|]. split; [done|].
  split; [exact Hc2|]. simpl in *. by rewrite Htr2, <- app_assoc.
Qed.

End Quit.

(** X13. When the user presses q in the preview on a frame (the frames
    before it being processed without fault or quit), the loop is left on
    that frame and the run returns normally: the frame has been tracked,
    counted in the lane counter and written to the output video, but the
    CSV holds records of the frames before it only, and no later frame is
    written. *)
Theorem quit_frame_counted_not_logged `{Cv2} (lanes0 : list (Z * polygon))
    (v : Main.video) (pre rest : list VideoProcessor.frame_input)
    (fq : VideoProcessor.frame_input) :
  Main.frames v = pre ++ fq :: rest ->
  ~ (Main.fps v == 0)%Q ->
  Forall (fun it => it.2 <> []) lanes0 ->
  Forall (fun fi => VideoProcessor.fault fi = None /\ VideoProcessor.key_q fi = false) pre ->
  VideoProcessor.fault fq = None -> VideoProcessor.key_q fq = true ->
  exists objss objs c,
    Forall2 (fun fi objs =>
               Tracker.update (VideoProcessor.detections fi)
                              (VideoProcessor.tracks fi) = Ok objs)
            (pre ++ [fq]) (objss ++ [objs]) /\
    pipeline_exit lanes0 true v = VideoProcessor.UserQuit /\
    (Main.pipeline lanes0 true v).2 = Ok c /\
    LaneCounter.update_all (LaneCounter.__init__ lanes0) (objss ++ [objs]) = Ok c /\
    written_frames (Main.pipeline lanes0 true v).1 =
      seqZ 1 (Z.of_nat (length pre) + 1) /\
    csv_rows (Main.pipeline lanes0 true v).1 =
      Utils.header :: records_from lanes0 1 (Main.fps v) objss.
Proof.
  intros Hfr Hfps Hpoly Hpre Hf Hq.
  unfold pipeline_exit, Main.pipeline, VideoProcessor.run. simpl. rewrite Hfr.
  set (self := {| VideoProcessor.fps := Main.fps v;
                  VideoProcessor.total_frames := Main.total_frames v;
                  VideoProcessor.show_preview := true |}).
  set (s0 := {| VideoProcessor.frame_idx := 0;
                VideoProcessor.lane_counter := LaneCounter.__init__ lanes0;
                VideoProcessor.trace := _ |}).
  rewrite loop_app.
  destruct (VideoProcessor.loop self Utils.log pre s0) as [s1 ex] eqn:E.
  assert (ex = VideoProcessor.EndOfStream) as ->.
  { change ex with (s1, ex).2. rewrite <- E.
    apply loop_clean; [done| |apply init_ok|done].
    eapply Forall_impl; [exact Hpre|]. intros fi [Hfi Hqi]. by split. }
  pose proof (loop_index _ _ _ _ _ E) as Hidx.
  pose proof (loop_counter _ _ _ _ E) as (objss & Hall & Hrun).
  pose proof (loop_end_of_stream _ _ _ _ E) as (objss' & Hall' & Hrows & Hw).
  assert (objss' = objss) as ->.
  { clear -Hall Hall'. revert objss' Hall'.
    induction Hall as [|fi objs fr os Hu _ IH]; intros objss' Hall';
      inversion Hall' as [|? objs' ? os' Hu' Hrest]; subst; [done|].
    rewrite Hu in Hu'. injection Hu' as <-. f_equal. by apply IH. }
  simpl in Hrun, Hrows, Hw, Hidx.
  destruct (reached_ok _ _ _ Hrun) as [Hok1 Hl1].
  destruct (frame_body_quit self Utils.log fq s1) as (s2 & objs & cs & ov & Hbody & Hobjs & Hcnt & Htr);
    [done..| by rewrite Hl1 |].
  cbn [VideoProcessor.loop]. rewrite Hbody. simpl.
  exists objss, objs, (VideoProcessor.lane_counter s2).
  split; [apply Forall2_app; [done | by repeat constructor]|].
  split; [done|]. split; [done|]. split.
  { clear -Hrun Hcnt. revert Hrun. generalize (LaneCounter.__init__ lanes0).
    induction objss as [|o os IH]; intros c0; simpl.
    - intros [= ->]. by rewrite Hcnt.
    - destruct (LaneCounter.update_counts c0 o) as [[c1 ?]|]; [|done]. simpl. apply IH. }
  rewrite Htr, <- !app_assoc, !written_frames_app, !csv_rows_app, Hw, Hrows, Hidx.
  simpl. split.
  - rewrite seqZ_app by lia. change (0 + 1) with 1. f_equal.
    change (seqZ (1 + Z.of_nat (length pre)) 1) with [1 + Z.of_nat (length pre)].
    f_equal. lia.
  - by rewrite app_nil_r.
Qed.

Lemma quit_frame_counted_not_logged_witness :
  exists objss objs c,
    Forall2 (fun fi objs =>
               Tracker.update (VideoProcessor.detections fi)
                              (VideoProcessor.tracks fi) = Ok objs)
            ([Sample.frame_car] ++ [Sample.frame_quit]) (objss ++ [objs]) /\
    pipeline_exit (H := Convex.cv2) Sample.lanes3 true
      (Sample.video [Sample.frame_car; Sample.frame_quit; Sample.frame_lane2])
      = VideoProcessor.UserQuit /\
    (Main.pipeline (H := Convex.cv2) Sample.lanes3 true
       (Sample.video [Sample.frame_car; Sample.frame_quit; Sample.frame_lane2])).2
      = Ok c /\
    LaneCounter.update_all (H := Convex.cv2) (LaneCounter.__init__ Sample.lanes3)
      (objss ++ [objs]) = Ok c /\
    written_frames
      (Main.pipeline (H := Convex.cv2) Sample.lanes3 true
         (Sample.video [Sample.frame_car; Sample.frame_quit; Sample.frame_lane2])).1
      = seqZ 1 (Z.of_nat (length [Sample.frame_car]) + 1) /\
    csv_rows
      (Main.pipeline (H := Convex.cv2) Sample.lanes3 true
         (Sample.video [Sample.frame_car; Sample.frame_quit; Sample.frame_lane2])).1
      = Utils.header :: records_from (H := Convex.cv2) Sample.lanes3 1 30 objss.
Proof.
  apply (quit_frame_counted_not_logged (H := Convex.cv2) Sample.lanes3
           (Sample.video [Sample.frame_car; Sample.frame_quit; Sample.frame_lane2])
           [Sample.frame_car] [Sample.frame_lane2] Sample.frame_quit).
  - reflexivity.
  - by vm_compute.
  - by repeat constructor.
  - by repeat constructor.
  - reflexivity.
  - reflexivity.
Defined.
